(** * UK_links_pivot: the filtering and pivot pipeline of [pivot_table.py]

    A shallow embedding of [src/pivot_table.py] together with the part of
    pandas and of Python's [re] it calls, followed by the properties of the
    pipeline: the merge algebra, chunked versus whole-file aggregation, count
    conservation, the routing by file size and the error paths. *)

From Stdlib Require Import ZArith Ascii String List.
From stdpp Require Import base option list strings gmap fin_maps.

Local Open Scope Z_scope.

(** ** Tables of counts

    The frame returned by [DataFrame.pivot_table] has the pairs
    (main value, secondary value) as its (sorted, duplicate-free) MultiIndex
    and one column of counts: a finite map from pairs to integers.  After
    [pd.merge(..., how='outer').sum(axis=1)] the counts are float64 holding
    integers; they stay exact far beyond any row count a file can have, and
    are kept in [Z] here. *)

Abbreviation PivotKey := (string * string)%type.
Abbreviation CountTable := (gmap (string * string) Z).

(** ** Python runtime: exceptions, the logger and the Excel sink *)

Inductive exn : Type :=
  | KeyError (key : string)
  | ValueError
  | AttributeError
  | ZeroDivisionError.

Inductive result (A : Type) : Type :=
  | Ok (a : A)
  | Raise (e : exn).
Arguments Ok {A} a.
Arguments Raise {A} e.

(** The records sent to [config.logger], one constructor per format string
    of the source:
    - [MsgSkipFilter c]: "Couldn't find column {c} in the dataframe, skipping filter."
    - [MsgStarting]: "Starting script using config {options.config}"
    - [MsgDiscovered fs]: "Discovered {len(fs)} files in the input folder: {fs}"
    - [MsgProcessing f]: "Processing file {f}"
    - [MsgUncaught f]: "Uncaught exception while parsing file {f}: "
    - [MsgClosing]: "Closing script" *)
Inductive message : Type :=
  | MsgSkipFilter (column : string)
  | MsgStarting
  | MsgDiscovered (files : list string)
  | MsgProcessing (file : string)
  | MsgUncaught (file : string)
  | MsgClosing.

Inductive level : Type := DEBUG | INFO | ERROR.

(** What a run leaves behind: log records and sheets written by
    [DataFrame.to_excel] (named here by the input file they come from; the
    path arithmetic of [get_new_output_path] is not modelled). *)
Inductive event : Type :=
  | Log (lv : level) (msg : message)
  | ToExcel (original_file_path : string) (table : CountTable) (merge_cells : bool).

(** Computations that emit events and may raise. *)
Record M (A : Type) : Type := Run { events : list event; outcome : result A }.
Arguments Run {A} events outcome.
Arguments events {A} m.
Arguments outcome {A} m.

Definition raise {A} (e : exn) : M A := Run [] (Raise e).
Definition emit (ev : event) : M unit := Run [ev] (Ok tt).
Definition lift {A} (r : result A) : M A := Run [] r.

#[global] Instance M_ret : MRet M := λ A a, Run [] (Ok a).

#[global] Instance M_bind : MBind M := λ A B k m,
  match outcome m with
  | Ok a => Run (events m ++ events (k a)) (outcome (k a))
  | Raise e => Run (events m) (Raise e)
  end.

(** [try: body except <class>: handler], the class given as a test on the
    exception raised. *)
Definition try_except {A} (body : M A) (catches : exn → bool) (handler : M A) : M A :=
  match outcome body with
  | Raise e =>
      if catches e then Run (events body ++ events handler) (outcome handler)
      else body
  | Ok _ => body
  end.

Definition is_KeyError (e : exn) : bool :=
  match e with KeyError _ => true | _ => false end.
Definition is_ZeroDivisionError (e : exn) : bool :=
  match e with ZeroDivisionError => true | _ => false end.

(** ** Regular expressions

    [re.search] and [re.fullmatch] as used by [Series.str.contains] and
    [Series.str.fullmatch] (pattern first, subject second).  The pipeline is
    parametric in the engine; [literal_re] below implements the fragment the
    shipped configurations use.  An engine answers for every pattern: it
    stands for [re] on the patterns that compile, and the [re.error] of a
    malformed pattern is outside the model. *)

Record ReEngine : Type := {
  re_search : string → string → bool;
  re_fullmatch : string → string → bool
}.

Definition cons_head (c : ascii) (alts : list string) : list string :=
  match alts with
  | a :: rest => String c a :: rest
  | [] => [String c EmptyString]
  end.

(** The alternatives of a pattern built from literal characters, ["|"] and
    backslash-escaped punctuation, each with its escapes removed. *)
Fixpoint literal_alternatives (p : string) : list string :=
  match p with
  | EmptyString => [EmptyString]
  | String c p' =>
      if Ascii.eqb c "|" then EmptyString :: literal_alternatives p'
      else if Ascii.eqb c "\" then
        match p' with
        | String d p'' => cons_head d (literal_alternatives p'')
        | EmptyString => [String c EmptyString]
        end
      else cons_head c (literal_alternatives p')
  end.

Definition is_meta (c : ascii) : bool :=
  existsb (Ascii.eqb c) ["."; "^"; "$"; "*"; "+"; "?"; "{"; "}"; "["; "]"; "("; ")"]%char.

Definition is_alnum (c : ascii) : bool :=
  let n := nat_of_ascii c in
  ((48 <=? n) && (n <=? 57) || (65 <=? n) && (n <=? 90) || (97 <=? n) && (n <=? 122))%nat.

(** The patterns [literal_re] is a model of Python's [re] for: no
    metacharacter, no escape of a letter or digit, no trailing backslash. *)
Fixpoint in_literal_fragment (p : string) : bool :=
  match p with
  | EmptyString => true
  | String c p' =>
      if Ascii.eqb c "\" then
        match p' with
        | String d p'' => negb (is_alnum d) && in_literal_fragment p''
        | EmptyString => false
        end
      else negb (is_meta c) && in_literal_fragment p'
  end.

Fixpoint has_substring (a s : string) : bool :=
  String.prefix a s ||
  match s with
  | EmptyString => false
  | String _ s' => has_substring a s'
  end.

Definition literal_re : ReEngine := {|
  re_search p s := existsb (λ a, has_substring a s) (literal_alternatives p);
  re_fullmatch p s := existsb (λ a, String.eqb a s) (literal_alternatives p)
|}.

(** ** Strings

    A Python [str] is held as its UTF-8 encoding, one [ascii] per byte, as
    the CSV files hold it. *)

(** The UTF-8 form of a code point. *)
Definition utf8 (cp : N) : string :=
  let byte (n : N) := ascii_of_N n in
  (if cp <? 128 then String (byte cp) EmptyString
   else if cp <? 2048 then
     String (byte (192 + cp / 64)) (String (byte (128 + cp mod 64)) EmptyString)
   else if cp <? 65536 then
     String (byte (224 + cp / 4096))
       (String (byte (128 + (cp / 64) mod 64))
          (String (byte (128 + cp mod 64)) EmptyString))
   else
     String (byte (240 + cp / 262144))
       (String (byte (128 + (cp / 4096) mod 64))
          (String (byte (128 + (cp / 64) mod 64))
             (String (byte (128 + cp mod 64)) EmptyString))))%N.

(** The code points [str.isspace] holds for, which are those [str.strip]
    removes: TAB, LF, VT, FF, CR, FS, GS, RS, US, the space, U+0085, U+00A0,
    U+1680, U+2000 to U+200A, U+2028, U+2029, U+202F, U+205F and U+3000. *)
Definition whitespace : list N :=
  [9; 10; 11; 12; 13; 28; 29; 30; 31; 32; 133; 160; 5760;
   8192; 8193; 8194; 8195; 8196; 8197; 8198; 8199; 8200; 8201; 8202;
   8232; 8233; 8239; 8287; 12288]%N.

(** A byte that continues a character: [10xxxxxx]. *)
Definition is_continuation (b : ascii) : bool :=
  let n := N_of_ascii b in ((128 <=? n) && (n <? 192))%N.

(** The characters of a [str]: a lead byte takes the one, two or three
    continuation bytes it announces; a byte that is no lead, or a lead
    without its continuation bytes, stands alone. *)
Fixpoint chars (s : string) : list string :=
  match s with
  | EmptyString => []
  | String a s1 =>
      let lead := N_of_ascii a in
      if (lead <? 192)%N then String a EmptyString :: chars s1
      else
        match s1 with
        | String b s2 =>
            if negb (is_continuation b) then String a EmptyString :: chars s1
            else if (lead <? 224)%N then String a (String b EmptyString) :: chars s2
            else
              match s2 with
              | String c s3 =>
                  if negb (is_continuation c) then String a EmptyString :: chars s1
                  else if (lead <? 240)%N then
                    String a (String b (String c EmptyString)) :: chars s3
                  else
                    match s3 with
                    | String d s4 =>
                        if is_continuation d then
                          String a (String b (String c (String d EmptyString))) :: chars s4
                        else String a EmptyString :: chars s1
                    | EmptyString => String a EmptyString :: chars s1
                    end
              | EmptyString => String a EmptyString :: chars s1
              end
        | EmptyString => String a EmptyString :: chars s1
        end
  end.

(** [''.join(cs)] *)
Definition str_join (cs : list string) : string := foldr String.append EmptyString cs.

(** [c.isspace()] for one character. *)
Definition py_isspace (c : string) : bool :=
  existsb (λ w, String.eqb (utf8 w) c) whitespace.

(** [lstrip] drops the leading run of whitespace characters. *)
Fixpoint lstrip (cs : list string) : list string :=
  match cs with
  | [] => []
  | c :: cs' => if py_isspace c then lstrip cs' else cs
  end.

(** [rstrip] drops the trailing run of whitespace: a character goes when it
    is whitespace and nothing is left behind it. *)
Fixpoint rstrip (cs : list string) : list string :=
  match cs with
  | [] => []
  | c :: cs' =>
      match rstrip cs' with
      | [] => if py_isspace c then [] else [c]
      | t => c :: t
      end
  end.

(** [s.strip()] *)
Definition strip (s : string) : string := str_join (rstrip (lstrip (chars s))).

(** Truth value of a [str]: non-empty. *)
Definition str_bool (s : string) : bool :=
  match s with EmptyString => false | _ => true end.

(** ** pandas: frames, series and the operations the script calls

    A frame is its column labels and its rows; a row maps a label to the
    string in that cell, and a label without an entry is a missing value
    (NaN).  Labels are unique, as [read_csv] makes them. *)

Abbreviation Row := (gmap string string).
Abbreviation Series := (list (option string)).

Record DataFrame : Type := { columns : list string; rows : list Row }.

(** [df[c]]: the column as a series, [KeyError] for an unknown label. *)
Definition getitem (df : DataFrame) (c : string) : result Series :=
  if bool_decide (c ∈ columns df) then Ok ((λ r : Row, r !! c) <$> rows df)
  else Raise (KeyError c).

Fixpoint select {A} (mask : list bool) (l : list A) : list A :=
  match mask, l with
  | b :: mask', x :: l' => if b then x :: select mask' l' else select mask' l'
  | _, _ => []
  end.

(** [df[mask]] for a boolean mask aligned with the rows. *)
Definition boolean_index (df : DataFrame) (mask : list bool) : DataFrame :=
  {| columns := columns df; rows := select mask (rows df) |}.

Fixpoint all_bool (mask : list (option bool)) : option (list bool) :=
  match mask with
  | [] => Some []
  | Some b :: mask' => cons b <$> all_bool mask'
  | None :: _ => None
  end.

(** [df[mask]] for an object mask: pandas refuses one that holds NaN
    ("Cannot mask with non-boolean array containing NA / NaN values"). *)
Definition boolean_index_na (df : DataFrame) (mask : list (option bool)) : result DataFrame :=
  match all_bool mask with
  | Some m => Ok (boolean_index df m)
  | None => Raise ValueError
  end.

(** [df.count()] for one column: its number of non-missing cells. *)
Definition count_notna (df : DataFrame) (c : string) : nat :=
  length (List.filter (λ r : Row, bool_decide (is_Some (r !! c))) (rows df)).

(** [df.dropna(how='all', axis=1)]: pandas keeps the columns with
    [count > 0]; a frame without rows loses every column. *)
Definition dropna_all_columns (df : DataFrame) : DataFrame :=
  {| columns := List.filter (λ c, (0 <? count_notna df c)%nat) (columns df);
     rows := rows df |}.

(** [s.str.contains(pat, na=na)] *)
Definition str_contains (re : ReEngine) (pat : string) (na : bool) (s : Series) : list bool :=
  (λ v, match v with Some x => re_search re pat x | None => na end) <$> s.

(** [s.str.fullmatch(pat)]: a missing value stays missing. *)
Definition str_fullmatch (re : ReEngine) (pat : string) (s : Series) : list (option bool) :=
  (λ v : option string, re_fullmatch re pat <$> v) <$> s.

(** [s.str.strip()] *)
Definition str_strip (s : Series) : Series :=
  (λ v : option string, strip <$> v) <$> s.

(** [s.astype(bool)]: NaN is a non-zero float, hence true. *)
Definition astype_bool (s : Series) : list bool :=
  (λ v, match v with Some x => str_bool x | None => true end) <$> s.

Definition fill_row (labels : list string) (r : Row) : Row :=
  foldr (λ c acc, <[c := default EmptyString (r !! c)]> acc) r labels.

(** [df.fillna('').astype(str)] *)
Definition fillna_astype_str (df : DataFrame) : DataFrame :=
  {| columns := columns df; rows := fill_row (columns df) <$> rows df |}.

(** [cols.difference(other)] (pandas also sorts it, which [drop] ignores). *)
Definition columns_difference (cols other : list string) : list string :=
  List.filter (λ c, bool_decide (c ∉ other)) cols.

(** [df.drop(labels, 1)] for labels taken from the frame. *)
Definition drop_columns (df : DataFrame) (labels : list string) : DataFrame :=
  {| columns := List.filter (λ c, bool_decide (c ∉ labels)) (columns df);
     rows := (λ r : Row, filter (λ kv, kv.1 ∉ labels) r) <$> rows df |}.

(** The group a row falls in; [groupby] leaves out rows with a missing key. *)
Definition group_key (index : string * string) (r : Row) : option PivotKey :=
  match r !! index.1, r !! index.2 with
  | Some a, Some b => Some (a, b)
  | _, _ => None
  end.

Definition add_to_group (k : PivotKey) (v : Z) (g : gmap PivotKey (list Z)) : gmap PivotKey (list Z) :=
  partial_alter (λ o, Some (v :: default [] o)) k g.

(** [df.groupby(index)[value]]: the values of each group, a group existing
    only once it has a row. *)
Definition groupby (index : string * string) (rs : list Row) (values : list Z)
    : gmap PivotKey (list Z) :=
  foldr (λ rv g, match group_key index rv.1 with
                 | Some k => add_to_group k rv.2 g
                 | None => g
                 end) ∅ (zip rs values).

(** [np.count_nonzero] *)
Definition count_nonzero (vs : list Z) : Z :=
  Z.of_nat (length (List.filter (λ v, negb (v =? 0)) vs)).

(** [df.pivot_table(index=[i1, i2], values=[v], aggfunc=f)], the value column
    [v] passed beside the frame (it holds integers, the cells strings). *)
Definition df_pivot_table (df : DataFrame) (index : string * string) (values : list Z)
    (aggfunc : list Z → Z) : result CountTable :=
  if bool_decide (index.1 ∈ columns df) then
    if bool_decide (index.2 ∈ columns df) then
      Ok (aggfunc <$> groupby index (rows df) values)
    else Raise (KeyError index.2)
  else Raise (KeyError index.1).

(** [df.empty] of a pivot frame: no row. *)
Definition df_empty (t : CountTable) : bool := bool_decide (t = ∅).

(** [pd.merge(left, right, left_index=True, right_index=True, how='outer')]:
    one row per key of either side, the side without the key giving NaN. *)
Definition merge_outer (left right : CountTable) : gmap PivotKey (option Z * option Z) :=
  merge (λ x y, match x, y with
                | None, None => None
                | _, _ => Some (x, y)
                end) left right.

(** [.sum(axis=1)], which skips NaN. *)
Definition sum_axis1 (t : gmap PivotKey (option Z * option Z)) : CountTable :=
  (λ xy, default 0 xy.1 + default 0 xy.2) <$> t.

(** *** read_csv *)

(** A CSV file: its size in bytes and its parsed content, every record
    taken to have one field per header label.  The files pandas refuses (no
    header line, a record with more fields than the header) are outside the
    model: [read_csv] below never fails. *)
Record CsvFile : Type := {
  file_size : Z;
  header : list string;
  records : list (list string)
}.

(** The strings [read_csv] reads as NaN by default. *)
Definition na_values : list string :=
  [""; "#N/A"; "#N/A N/A"; "#NA"; "-1.#IND"; "-1.#QNAN"; "-NaN"; "-nan";
   "1.#IND"; "1.#QNAN"; "<NA>"; "N/A"; "NA"; "NULL"; "NaN"; "n/a"; "nan"; "null"].

Definition is_na (v : string) : bool := bool_decide (v ∈ na_values).

Definition parse_record (na_filter : bool) (hdr : list string) (fields : list string) : Row :=
  list_to_map (List.filter (λ cv, negb (na_filter && is_na cv.2)) (zip hdr fields)).

Definition frame_of (na_filter : bool) (hdr : list string) (recs : list (list string))
    : DataFrame :=
  {| columns := hdr; rows := parse_record na_filter hdr <$> recs |}.

(** [pd.read_csv(path, dtype=str, na_filter=...)] *)
Definition read_csv (f : CsvFile) (na_filter : bool) : DataFrame :=
  frame_of na_filter (header f) (records f).

Fixpoint chunked_fuel {A} (fuel n : nat) (l : list A) : list (list A) :=
  match fuel with
  | O => []
  | S fuel' =>
      match l with
      | [] => []
      | _ => take n l :: chunked_fuel fuel' n (drop n l)
      end
  end.

(** Consecutive slices of [n] elements, the last one possibly shorter. *)
Definition chunked {A} (n : nat) (l : list A) : list (list A) :=
  chunked_fuel (length l) n l.

(** [pd.read_csv(path, dtype=str, chunksize=n, na_filter=...)], iterated,
    for a file with at least one record: its records [n] at a time. *)
Definition read_csv_chunks (f : CsvFile) (chunksize : N) (na_filter : bool) : list DataFrame :=
  frame_of na_filter (header f) <$> chunked (N.to_nat chunksize) (records f).

(** ** The configuration class

    [merge_output_cells] is an attribute of [config-nl.py] only: [None] is
    the class without it, as in [config.py]. *)
Record Config : Type := {
  main_column : string;
  main_column_exclude : string;
  secondary_column : string;
  secondary_column_exclude : string;
  additional_filters : list (string * string);
  merge_output_cells : option bool
}.

(** [config.py] *)
Definition config_uk : Config := {|
  main_column := "Destination";
  main_column_exclude :=
    "14-carat\/|8-carat\/|9-carat\/|18-carat\/|22-carat\/|500\/|585\/|600\/|950\/|925\/";
  secondary_column := "Anchor";
  secondary_column_exclude :=
    "Yes|No|Colour|Purity|Width|Profile|Price|Stone size|Style|Menu|Account|Page Previous|Page Next|Remove This Item";
  additional_filters := [("Follow", "FALSE")];
  merge_output_cells := None
|}.

(** [config-nl.py] *)
Definition config_nl : Config := {|
  main_column := "Destination";
  main_column_exclude :=
    "14-karaat\/|8-karaat\/|9-karaat\/|18-karaat\/|22-karaat\/|500\/|585\/|600\/|950\/|925\/";
  secondary_column := "Anchor";
  secondary_column_exclude :=
    "Ja|Nee|Breedte|Kleur|Gehalte|Profiel|Prijs|Steengrotte|Stijl|Menu|Account|Seite Zurück|Pagina Vorige|Verwijder dit artikel";
  additional_filters := [("Follow", "true|false")];
  merge_output_cells := Some false
|}.

(** The name given to the column of counts. *)
Definition count_column (config : Config) : string :=
  "Count of " +:+ secondary_column config.

(** The configurations the model of [pivot_table] is meant for: the two key
    columns differ, and the count column is a new one.  Line 86 assigns the
    count column in the frame; were it named like the main column it would
    replace that column, which the model, keeping the counts beside the
    frame, does not follow. *)
Definition wf_config (config : Config) : bool :=
  bool_decide (main_column config ≠ secondary_column config) &&
  bool_decide (main_column config ≠ count_column config).

(** ** pivot_table.py *)

Definition MAX_FILE_SIZE : Z := Z.shiftl 100 20.
Definition CHUNKSIZE : N := 100000%N.

(** Lines 112-117: the outer merge of two pivot frames on their index, summed
    across the two count columns. *)
Definition merge_counts (overall_pivot_df pivot_chunk : CountTable) : CountTable :=
  sum_axis1 (merge_outer overall_pivot_df pivot_chunk).

Section Pipeline.

Context (re : ReEngine).

(** Lines 59-63, one exclusion: skipped for an empty pattern; otherwise the
    rows whose value contains a match go, missing values counting as no
    match. *)
Definition exclude_filter (dataframe : DataFrame) (column pattern : string) : M DataFrame :=
  if str_bool pattern then
    col ← lift (getitem dataframe column);
    mret (boolean_index dataframe (negb <$> str_contains re pattern false col))
  else mret dataframe.

(** Lines 67-71, one pass of the loop over [additional_filters]. *)
Definition additional_filter (dataframe : DataFrame) (f : string * string) : M DataFrame :=
  try_except
    (col ← lift (getitem dataframe f.1);
     lift (boolean_index_na dataframe (str_fullmatch re f.2 col)))
    is_KeyError
    (emit (Log ERROR (MsgSkipFilter f.1));; mret dataframe).

Fixpoint for_filters (dataframe : DataFrame) (filters : list (string * string)) : M DataFrame :=
  match filters with
  | [] => mret dataframe
  | f :: filters' =>
      dataframe ← additional_filter dataframe f;
      for_filters dataframe filters'
  end.

Definition filter_dataframe (dataframe : DataFrame) (config : Config) : M DataFrame :=
  let dataframe := dropna_all_columns dataframe in
  dataframe ← exclude_filter dataframe (main_column config) (main_column_exclude config);
  dataframe ← exclude_filter dataframe (secondary_column config) (secondary_column_exclude config);
  let dataframe := fillna_astype_str dataframe in
  for_filters dataframe (additional_filters config).

Definition pivot_table (dataframe : DataFrame) (config : Config) : M CountTable :=
  let index_columns := (main_column config, secondary_column config) in
  let new_df :=
    drop_columns dataframe
      (columns_difference (columns dataframe) [index_columns.1; index_columns.2]) in
  sec ← lift (getitem new_df (secondary_column config));
  let new_df := boolean_index new_df (astype_bool (str_strip sec)) in
  let count_values := (λ _ : Row, 1) <$> rows new_df in
  lift (df_pivot_table new_df index_columns count_values count_nonzero).

(** The loop of [pivot_chunked_file] over the chunks the reader yields,
    [overall_pivot_df] being [None] until a chunk gives a non-empty pivot. *)
Fixpoint for_chunks (config : Config) (reader : list DataFrame)
    (overall_pivot_df : option CountTable) : M (option CountTable) :=
  match reader with
  | [] => mret overall_pivot_df
  | chunk :: reader' =>
      filtered_chunk ← filter_dataframe chunk config;
      pivot_chunk ← pivot_table filtered_chunk config;
      if df_empty pivot_chunk then for_chunks config reader' overall_pivot_df
      else
        match overall_pivot_df with
        | None => for_chunks config reader' (Some pivot_chunk)
        | Some overall => for_chunks config reader' (Some (merge_counts overall pivot_chunk))
        end
  end.

Definition pivot_chunked_file (input_file : CsvFile) (config : Config) : M (option CountTable) :=
  let reader := read_csv_chunks input_file CHUNKSIZE false in
  for_chunks config reader None.

(** The [else] branch of [pivot_file]. *)
Definition pivot_whole_file (input_file : CsvFile) (config : Config) : M (option CountTable) :=
  let df := read_csv input_file true in
  filtered_df ← filter_dataframe df config;
  pivot_df ← pivot_table filtered_df config;
  mret (Some pivot_df).

Definition pivot_file (input_file : CsvFile) (config : Config) : M (option CountTable) :=
  if file_size input_file >? MAX_FILE_SIZE then pivot_chunked_file input_file config
  else pivot_whole_file input_file config.

(** [dataframe.to_excel(new_file_path, merge_cells=config.merge_output_cells)]:
    the method is looked up on [dataframe], then the attribute on [config]. *)
Definition write_dataframe_to_output (dataframe : option CountTable)
    (original_file_path : string) (config : Config) : M unit :=
  match dataframe with
  | None => raise AttributeError
  | Some table =>
      match merge_output_cells config with
      | None => raise AttributeError
      | Some merge_cells => emit (ToExcel original_file_path table merge_cells)
      end
  end.

(** The loop of [main] over the discovered files, each given with its path. *)
Fixpoint for_input_files (config : Config) (input_files : list (string * CsvFile)) : M unit :=
  match input_files with
  | [] => mret tt
  | (input_file_path, input_file) :: input_files' =>
      try_except
        (emit (Log DEBUG (MsgProcessing input_file_path));;
         pivot_df ← pivot_file input_file config;
         write_dataframe_to_output pivot_df input_file_path config)
        is_ZeroDivisionError
        (emit (Log ERROR (MsgUncaught input_file_path)));;
      for_input_files config input_files'
  end.

(** [main] once the configuration is imported and the input folder walked. *)
Definition main (config : Config) (input_files : list (string * CsvFile)) : M unit :=
  emit (Log INFO MsgStarting);;
  emit (Log DEBUG (MsgDiscovered input_files.*1));;
  for_input_files config input_files;;
  emit (Log INFO MsgClosing).

End Pipeline.

(** ** Notions the properties are stated with *)

(** The sum of the counts of a table. *)
Definition total_count (t : CountTable) : Z :=
  map_fold (λ _ c acc, c + acc) 0 t.

(** The entries a table stores, as (key, count) pairs. *)
Definition entries (t : CountTable) : list (PivotKey * Z) := map_to_list t.

(** The invariant of a CountTable: every stored count is at least 1 and no
    key is stored twice. *)
Definition count_invariant (t : CountTable) : Prop :=
  Forall (λ kc, 1 ≤ kc.2) (entries t) ∧ NoDup (entries t).*1.

(** A brute-force tally of a list of keys: one more for each occurrence. *)
Definition tally (ks : list PivotKey) : CountTable :=
  foldr (λ k t, <[k := 1 + default 0 (t !! k)]> t) ∅ ks.

(** The test of line 83 on one row: the secondary value, trimmed, is not
    empty (a missing value passes [astype(bool)]). *)
Definition secondary_nonblank (config : Config) (r : Row) : bool :=
  match r !! secondary_column config with
  | Some s => str_bool (strip s)
  | None => true
  end.

(** The keys of the rows [pivot_table] counts. *)
Definition pivot_keys (config : Config) (rs : list Row) : list PivotKey :=
  omap (group_key (main_column config, secondary_column config))
       (List.filter (secondary_nonblank config) rs).

(** A row holds a string in every column of the schema. *)
Definition complete_row (cols : list string) (r : Row) : Prop :=
  ∀ c, c ∈ cols → is_Some (r !! c).

(** The test one exclusion of [filter_dataframe] puts on a row: no test for
    an empty pattern, otherwise no match inside the value (none inside a
    missing one). *)
Definition keeps (re : ReEngine) (column pattern : string) (r : Row) : bool :=
  if str_bool pattern then
    negb (match r !! column with
          | Some x => re_search re pattern x
          | None => false
          end)
  else true.

(** The test one additional filter puts on a row of a frame with columns
    [cols]: none when the frame lacks the column. *)
Definition passes_filter (re : ReEngine) (cols : list string) (f : string * string)
    (r : Row) : bool :=
  if bool_decide (f.1 ∈ cols) then re_fullmatch re f.2 (default EmptyString (r !! f.1))
  else true.

Fixpoint apply_filters (re : ReEngine) (cols : list string) (fs : list (string * string))
    (rs : list Row) : list Row :=
  match fs with
  | [] => rs
  | f :: fs' => apply_filters re cols fs' (List.filter (passes_filter re cols f) rs)
  end.

(** The diagnostics of the additional filters whose column is not in [cols]. *)
Definition skipped (cols : list string) (fs : list (string * string)) : list event :=
  (λ f : string * string, Log ERROR (MsgSkipFilter f.1))
    <$> List.filter (λ f : string * string, bool_decide (f.1 ∉ cols)) fs.

(** The rows [filter_dataframe] keeps of a frame whose columns, empty ones
    dropped, are [cols]. *)
Definition filtered_rows (re : ReEngine) (config : Config) (cols : list string)
    (rs : list Row) : list Row :=
  apply_filters re cols (additional_filters config)
    (fill_row cols <$>
       List.filter (keeps re (secondary_column config) (secondary_column_exclude config))
         (List.filter (keeps re (main_column config) (main_column_exclude config)) rs)).

(** The key column whose exclusion is set while the frame lacks it. *)
Definition missing_key (config : Config) (cols : list string) : option string :=
  if str_bool (main_column_exclude config) && bool_decide (main_column config ∉ cols)
  then Some (main_column config)
  else if str_bool (secondary_column_exclude config)
          && bool_decide (secondary_column config ∉ cols)
  then Some (secondary_column config)
  else None.

(** Whitespace-only or empty, in the words of the specification: the string
    is the UTF-8 form of a sequence, possibly empty, of whitespace code
    points. *)
Definition blank (s : string) : Prop :=
  ∃ ws : list N, Forall (λ w, w ∈ whitespace) ws ∧ s = str_join (utf8 <$> ws).

(** A row counts for the pivot: its secondary value, trimmed, is not empty. *)
Definition has_secondary (config : Config) (r : Row) : bool :=
  match r !! secondary_column config with
  | Some s => str_bool (strip s)
  | None => false
  end.

(** The rows carrying exactly the pair [(m, s)] in the two key columns. *)
Definition has_key (config : Config) (k : PivotKey) (r : Row) : bool :=
  bool_decide (r !! main_column config = Some k.1 ∧ r !! secondary_column config = Some k.2).

(** The configuration with another table of additional filters. *)
Definition with_filters (config : Config) (fs : list (string * string)) : Config :=
  {| main_column := main_column config;
     main_column_exclude := main_column_exclude config;
     secondary_column := secondary_column config;
     secondary_column_exclude := secondary_column_exclude config;
     additional_filters := fs;
     merge_output_cells := merge_output_cells config |}.

(** ** Sample inputs *)

(** A file of exactly [MAX_FILE_SIZE] bytes: one of its anchors reads "NA". *)
Definition boundary_file : CsvFile := {|
  file_size := 104857600;
  header := ["Destination"; "Anchor"; "Follow"];
  records := [["a"; "NA"; "FALSE"]; ["b"; "y"; "FALSE"]]
|}.

(** ** Chunked against whole-batch aggregation *)

(** Lines 105-106 and 131-132: filter a batch, then aggregate it. *)
Definition filter_then_pivot (re : ReEngine) (df : DataFrame) (config : Config)
    : M CountTable :=
  filtered ← filter_dataframe re df config;
  pivot_table filtered config.


(** One pass of the loop of [pivot_chunked_file] on the table of a chunk. *)
Definition accumulate (overall : option CountTable) (pivot_chunk : CountTable)
    : option CountTable :=
  if df_empty pivot_chunk then overall
  else Some (match overall with
             | None => pivot_chunk
             | Some o => merge_counts o pivot_chunk
             end).

(** The exception a frame with columns [cols] and at least one row, none of
    its cells missing, runs into: a key column it lacks. *)
Definition schema_error (config : Config) (cols : list string) : option exn :=
  match missing_key config cols with
  | Some c => Some (KeyError c)
  | None =>
      if bool_decide (secondary_column config ∈ cols) then
        if bool_decide (main_column config ∈ cols) then None
        else Some (KeyError (main_column config))
      else Some (KeyError (secondary_column config))
  end.

(** The table of a batch of rows under the schema [cols]. *)
Definition table_of (re : ReEngine) (config : Config) (cols : list string)
    (rs : list Row) : CountTable :=
  tally (pivot_keys config (filtered_rows re config cols rs)).


Definition gap_columns : list string := ["Destination"; "Anchor"; "Follow"].


(** A file without the main column, and one with every column. *)
Definition no_destination_file : CsvFile := {|
  file_size := 1000;
  header := ["URL"; "Anchor"; "Follow"];
  records := [["u"; "x"; "true"]]
|}.

Definition good_file : CsvFile := {|
  file_size := 1000;
  header := ["Destination"; "Anchor"; "Follow"];
  records := [["NY"; "Blue"; "true"]; ["NY"; "Blue"; "false"]; ["LA"; "Red"; "true"]]
|}.

(** A file above [MAX_FILE_SIZE] none of whose rows has an anchor. *)
Definition blank_anchor_file : CsvFile := {|
  file_size := 104857601;
  header := ["Destination"; "Anchor"; "Follow"];
  records := [["NY"; ""; "true"]; ["LA"; "   "; "false"]]
|}.

(** The same rows in a file below the threshold. *)
Definition small_blank_anchor_file : CsvFile := {|
  file_size := 1000;
  header := ["Destination"; "Anchor"; "Follow"];
  records := [["NY"; ""; "true"]; ["LA"; "   "; "false"]]
|}.


(** A frame without the "Follow" column that [config.py] filters on. *)
Definition no_follow_frame : DataFrame := {|
  columns := ["Destination"; "Anchor"];
  rows := [{[ "Destination" := "NY"; "Anchor" := "Blue" ]};
           {[ "Destination" := "LA"; "Anchor" := "Menu" ]}]
|}.




(** The rows of the end-to-end example, and what [filter_dataframe] makes of
    them under [config-nl.py]. *)
Definition example_frame : DataFrame := {|
  columns := ["Destination"; "Anchor"; "Follow"];
  rows := [{[ "Destination" := "NY"; "Anchor" := "Blue"; "Follow" := "true" ]};
           {[ "Destination" := "NY"; "Anchor" := "Blue"; "Follow" := "true" ]};
           {[ "Destination" := "NY"; "Follow" := "true" ]};
           {[ "Destination" := "LA"; "Anchor" := "Red"; "Follow" := "false" ]};
           {[ "Destination" := "LA"; "Anchor" := "Menu"; "Follow" := "true" ]}]
|}.

Definition example_filtered : DataFrame := {|
  columns := ["Destination"; "Anchor"; "Follow"];
  rows := [{[ "Destination" := "NY"; "Anchor" := "Blue"; "Follow" := "true" ]};
           {[ "Destination" := "NY"; "Anchor" := "Blue"; "Follow" := "true" ]};
           {[ "Destination" := "NY"; "Anchor" := ""; "Follow" := "true" ]};
           {[ "Destination" := "LA"; "Anchor" := "Red"; "Follow" := "false" ]}]
|}.

Definition example_table : CountTable :=
  {[ ("NY", "Blue") := 2; ("LA", "Red") := 1 ]}.

(** Rows whose "Anchor" is blank in several ways (a no-break space U+00A0,
    a space, an ideographic space U+3000 and a TAB, no value), next to an
    anchor that ends with a no-break space and two plain ones. *)
Definition nbsp : string := utf8 160.

Definition spaces_frame : DataFrame := {|
  columns := ["Destination"; "Anchor"; "Follow"];
  rows := [{[ "Destination" := "NY"; "Anchor" := nbsp; "Follow" := "true" ]};
           {[ "Destination" := "LA"; "Anchor" := "Red"; "Follow" := "true" ]};
           {[ "Destination" := "LA"; "Anchor" := " " +:+ utf8 12288 +:+ utf8 9;
              "Follow" := "false" ]};
           {[ "Destination" := "NY"; "Anchor" := "Blue" +:+ nbsp; "Follow" := "true" ]};
           {[ "Destination" := "LA"; "Anchor" := "Red"; "Follow" := "false" ]};
           {[ "Destination" := "NY"; "Follow" := "true" ]}]
|}.

Definition spaces_filtered : DataFrame := {|
  columns := ["Destination"; "Anchor"; "Follow"];
  rows := [{[ "Destination" := "NY"; "Anchor" := nbsp; "Follow" := "true" ]};
           {[ "Destination" := "LA"; "Anchor" := "Red"; "Follow" := "true" ]};
           {[ "Destination" := "LA"; "Anchor" := " " +:+ utf8 12288 +:+ utf8 9;
              "Follow" := "false" ]};
           {[ "Destination" := "NY"; "Anchor" := "Blue" +:+ nbsp; "Follow" := "true" ]};
           {[ "Destination" := "LA"; "Anchor" := "Red"; "Follow" := "false" ]};
           {[ "Destination" := "NY"; "Anchor" := ""; "Follow" := "true" ]}]
|}.

Definition spaces_table : CountTable :=
  {[ ("LA", "Red") := 2; ("NY", "Blue" +:+ nbsp) := 1 ]}.


(** ** Further notions: rows, exceptions and sheets of a run *)

(** The test [filter_dataframe] puts on one row of a batch whose non-empty
    columns are [cols]: the two exclusions on the row as read, the additional
    filters on the row with its missing cells filled. *)
Definition survives (re : ReEngine) (config : Config) (cols : list string) (r : Row) : bool :=
  keeps re (main_column config) (main_column_exclude config) r &&
  keeps re (secondary_column config) (secondary_column_exclude config) r &&
  forallb (λ f, passes_filter re cols f (fill_row cols r)) (additional_filters config).

(** The sheets a run has written, in order. *)
Definition sheets (evs : list event) : list (string * CountTable * bool) :=
  omap (λ ev, match ev with
              | ToExcel path table merge_cells => Some (path, table, merge_cells)
              | Log _ _ => None
              end) evs.

(** The diagnostic of a skipped additional filter. *)
Definition is_skip_log (ev : event) : Prop :=
  match ev with
  | Log ERROR (MsgSkipFilter _) => True
  | _ => False
  end.

(** The column is in the frame and at least one row has a value in it: what
    [dropna(how='all', axis=1)] keeps. *)
Definition has_value (df : DataFrame) (c : string) : Prop :=
  c ∈ columns df ∧ ∃ r, r ∈ rows df ∧ is_Some (r !! c).

(** Lines 156-158: the body of the [try] statement of [main] for one file. *)
Definition process_file (re : ReEngine) (config : Config) (input_file_path : string)
    (input_file : CsvFile) : M unit :=
  emit (Log DEBUG (MsgProcessing input_file_path));;
  pivot_df ← pivot_file re input_file config;
  write_dataframe_to_output pivot_df input_file_path config.

(** The record the handler of [main] writes. *)
Definition is_uncaught_log (ev : event) : Prop :=
  match ev with
  | Log _ (MsgUncaught _) => True
  | _ => False
  end.

(** ** Paths and the directory walk

    [os.path] on POSIX, on the strings themselves.  The two functions that
    depend on the working directory of the process, [os.path.abspath] and
    [os.path.relpath], are left as parameters. *)

Definition starts_with_sep (p : string) : bool :=
  match p with
  | String c _ => Ascii.eqb c "/"
  | EmptyString => false
  end.

Fixpoint ends_with_sep (p : string) : bool :=
  match p with
  | EmptyString => false
  | String c EmptyString => Ascii.eqb c "/"
  | String _ p' => ends_with_sep p'
  end.

(** [os.path.join(a, b)]: an absolute [b] replaces [a]; otherwise [b] is
    appended, after a separator unless [a] is empty or ends with one. *)
Definition path_join (a b : string) : string :=
  if starts_with_sep b then b
  else if negb (str_bool a) || ends_with_sep a then a +:+ b
  else a +:+ "/" +:+ b.

(** The split of a string at the last occurrence of [c], which goes to
    neither side: [s.rpartition(c)] when [c] occurs. *)
Fixpoint rsplit (c : ascii) (s : string) : option (string * string) :=
  match s with
  | EmptyString => None
  | String a s' =>
      match rsplit c s' with
      | Some (h, t) => Some (String a h, t)
      | None => if Ascii.eqb a c then Some (EmptyString, s') else None
      end
  end.

(** [os.path.basename(p)]: what follows the last separator. *)
Definition basename (p : string) : string :=
  match rsplit "/" p with
  | Some (_, t) => t
  | None => p
  end.

Fixpoint all_char (c : ascii) (s : string) : bool :=
  match s with
  | EmptyString => true
  | String a s' => Ascii.eqb a c && all_char c s'
  end.

(** [s.rstrip(c)] *)
Fixpoint rstrip_char (c : ascii) (s : string) : string :=
  match s with
  | EmptyString => EmptyString
  | String a s' =>
      match rstrip_char c s' with
      | EmptyString => if Ascii.eqb a c then EmptyString else String a EmptyString
      | t => String a t
      end
  end.

(** [os.path.dirname(p)]: what precedes the last separator, with it; the
    trailing separators go unless nothing else is there. *)
Definition dirname (p : string) : string :=
  match rsplit "/" p with
  | Some (h, _) =>
      let head := h +:+ "/" in
      if all_char "/" head then head else rstrip_char "/" head
  | None => EmptyString
  end.

(** [os.path.splitext(p)]: the extension starts at the last dot of the last
    component, unless only dots precede it there. *)
Definition splitext (p : string) : string * string :=
  let '(dir, name) := match rsplit "/" p with
                      | Some (h, t) => (h +:+ "/", t)
                      | None => (EmptyString, p)
                      end in
  match rsplit "." name with
  | Some (stem, ext) =>
      if all_char "." stem then (p, EmptyString)
      else (dir +:+ stem, String "." ext)
  | None => (p, EmptyString)
  end.

(** A directory as [os.walk] sees it: the names of its files and its
    subdirectories, in the order the system lists them. *)
#[warnings="-register-all"] Inductive Tree : Type :=
  | Dir (files : list string) (subdirs : list (string * Tree)).

(** [os.walk(top)], top down: the directory, then each subdirectory in
    turn. *)
Fixpoint walk (top : string) (t : Tree) : list (string * list string * list string) :=
  match t with
  | Dir files subdirs =>
      (top, subdirs.*1, files)
      :: (fix walk_subdirs (ds : list (string * Tree)) :=
            match ds with
            | [] => []
            | (name, sub) :: ds' => walk (path_join top name) sub ++ walk_subdirs ds'
            end) subdirs
  end.

(** [os.walk] of a folder that may not exist: nothing is yielded then. *)
Definition os_walk (top : string) (folder : option Tree)
    : list (string * list string * list string) :=
  match folder with
  | Some t => walk top t
  | None => []
  end.

Section Paths.

Context (abspath : string → string).
Context (relpath : string → string → result string).

(** Lines 25-29 for the files of one directory. *)
Definition csv_files_in (root : string) (files : list string) : list string :=
  omap (λ file,
          let '(filename, extension) := splitext file in
          if String.eqb extension ".csv" then Some (abspath (path_join root file))
          else None) files.

Definition read_input_csv_files (input_folder : string) (folder : option Tree)
    : list string :=
  concat ((λ entry : string * list string * list string,
             csv_files_in entry.1.1 entry.2) <$> os_walk input_folder folder).

(** [get_new_output_path], the two folders of the configuration class given
    on their own. *)
Definition get_new_output_path (original_file_path input_folder output_folder : string)
    : result string :=
  match relpath (dirname original_file_path) input_folder with
  | Raise e => Raise e
  | Ok file_subdirectory =>
      let '(filename, extension) := splitext (basename original_file_path) in
      let new_file_name := filename +:+ ".xlsx" in
      Ok (path_join (path_join output_folder file_subdirectory) new_file_name)
  end.

End Paths.

(** The file [name] lies in the tree under the chain of subdirectories
    [dirs]. *)
Fixpoint in_tree (t : Tree) (dirs : list string) (name : string) : Prop :=
  match t, dirs with
  | Dir files _, [] => name ∈ files
  | Dir _ subdirs, d :: dirs' =>
      (fix in_subdirs (ds : list (string * Tree)) : Prop :=
         match ds with
         | [] => False
         | (d', sub) :: ds' => (d' = d ∧ in_tree sub dirs' name) ∨ in_subdirs ds'
         end) subdirs
  end.

Fixpoint no_char (c : ascii) (s : string) : bool :=
  match s with
  | EmptyString => true
  | String a s' => negb (Ascii.eqb a c) && no_char c s'
  end.

Definition no_sep (s : string) : bool := no_char "/" s.

(** A file name that [splitext] gives the extension [.csv]: something
    other than dots only, then [.csv]. *)
Definition csv_name (name : string) : Prop :=
  ∃ stem, name = stem +:+ ".csv" ∧ all_char "." stem = false.

(** The file names of the tree hold no separator. *)
Fixpoint file_names_ok (t : Tree) : Prop :=
  match t with
  | Dir files subdirs =>
      Forall (λ name, no_sep name = true) files ∧
      (fix subdirs_ok (ds : list (string * Tree)) : Prop :=
         match ds with
         | [] => True
         | (_, sub) :: ds' => file_names_ok sub ∧ subdirs_ok ds'
         end) subdirs
  end.

Definition sample_tree : Tree :=
  Dir ["a.csv"; "notes.txt"; ".csv"; "b.CSV"; "x.tar.csv"]
      [("sub", Dir ["c.csv"; "..csv"] [("deep", Dir ["d.csv"; "e.csv.bak"] [])]);
       ("empty", Dir [] [])].

(** The two key columns of [example_filtered] under other labels' absence:
    the same keys row by row, no "Follow" column. *)
Definition example_keys_only : DataFrame := {|
  columns := ["Anchor"; "Destination"];
  rows := [{[ "Destination" := "NY"; "Anchor" := "Blue" ]};
           {[ "Destination" := "NY"; "Anchor" := "Blue" ]};
           {[ "Destination" := "NY"; "Anchor" := "" ]};
           {[ "Destination" := "LA"; "Anchor" := "Red" ]}]
|}.

(** Every pattern of the configuration is in the fragment of
    [in_literal_fragment]: [re] compiles each of them, so that no
    [str.contains] or [str.fullmatch] fails on the pattern itself. *)
Definition literal_patterns (config : Config) : bool :=
  in_literal_fragment (main_column_exclude config) &&
  in_literal_fragment (secondary_column_exclude config) &&
  forallb (λ f : string * string, in_literal_fragment f.2) (additional_filters config).

(** A file [read_csv] parses: it has a header line, and every record has
    one field per header label. *)
Definition well_formed_csv (f : CsvFile) : Prop :=
  header f ≠ [] ∧ Forall (λ fields, length fields = length (header f)) (records f).

(** A file with a header line and no record. *)
Definition header_only_file : CsvFile := {|
  file_size := 25;
  header := ["Destination"; "Anchor"; "Follow"];
  records := []
|}.

(** [os.path.abspath] and [os.path.relpath] for a process started in
    [/home/user], on the relative paths and on the one folder the samples
    use. *)
Definition sample_abspath (p : string) : string := "/home/user/" +:+ p.

Definition sample_relpath (path start : string) : result string :=
  if String.eqb path "" then Raise ValueError
  else if String.eqb path "/home/user/input/UK/sub" && String.eqb start "input/UK"
       then Ok "sub"
  else Ok ".".

(** * Properties *)

(** ** The merge of two pivot frames *)

Lemma lookup_merge_counts (a b : CountTable) (k : PivotKey) :
  merge_counts a b !! k =
    match a !! k, b !! k with
    | Some x, Some y => Some (x + y)
    | Some x, None => Some x
    | None, Some y => Some y
    | None, None => None
    end.
Proof.
  unfold merge_counts, sum_axis1, merge_outer.
  rewrite lookup_fmap, lookup_merge.
  destruct (a !! k) as [x|], (b !! k) as [y|]; simpl; try reflexivity;
    f_equal; lia.
Qed.

(** C2: the keys of [merge_counts a b] are those of [a] and of [b]; a key of
    both gets the sum of its two counts, a key of one side only keeps that
    side's count. *)
Theorem merge_counts_semantics (a b : CountTable) :
  dom (merge_counts a b) = dom a ∪ dom b ∧
  ∀ k : PivotKey,
    merge_counts a b !! k =
      match a !! k, b !! k with
      | Some x, Some y => Some (x + y)
      | Some x, None => Some x
      | None, Some y => Some y
      | None, None => None
      end.
Proof.
  split; [| apply lookup_merge_counts].
  apply set_eq. intros k.
  rewrite elem_of_union, !elem_of_dom, lookup_merge_counts.
  destruct (a !! k), (b !! k); split; intros H;
    try (destruct H as [H|H]); try (by inversion H); eauto.
Qed.

Lemma merge_counts_comm (a b : CountTable) : merge_counts a b = merge_counts b a.
Proof.
  apply map_eq; intros k; rewrite !lookup_merge_counts.
  destruct (a !! k), (b !! k); f_equal; lia.
Qed.

Lemma merge_counts_assoc (a b c : CountTable) :
  merge_counts (merge_counts a b) c = merge_counts a (merge_counts b c).
Proof.
  apply map_eq; intros k; rewrite !lookup_merge_counts.
  destruct (a !! k), (b !! k), (c !! k); f_equal; lia.
Qed.

Lemma merge_counts_empty_r (a : CountTable) : merge_counts a ∅ = a.
Proof.
  apply map_eq; intros k. rewrite lookup_merge_counts, lookup_empty.
  by destruct (a !! k).
Qed.

(** C3: [merge_counts] is commutative and associative, and the empty table
    is its identity. *)
Theorem merge_counts_algebra (a b c : CountTable) :
  merge_counts a b = merge_counts b a ∧
  merge_counts (merge_counts a b) c = merge_counts a (merge_counts b c) ∧
  merge_counts a ∅ = a.
Proof.
  split; [apply merge_counts_comm |].
  split; [apply merge_counts_assoc | apply merge_counts_empty_r].
Qed.

Lemma merge_counts_empty_l (a : CountTable) : merge_counts ∅ a = a.
Proof.
  apply map_eq; intros k. rewrite lookup_merge_counts, lookup_empty.
  by destruct (a !! k).
Qed.

(** ** Counting: [groupby] followed by [count_nonzero] is a tally *)

Lemma count_nonzero_cons_one (vs : list Z) :
  count_nonzero (1 :: vs) = 1 + count_nonzero vs.
Proof. unfold count_nonzero. simpl. lia. Qed.

Lemma groupby_ones_tally (index : string * string) (rs : list Row) :
  count_nonzero <$> groupby index rs ((λ _ : Row, 1) <$> rs)
  = tally (omap (group_key index) rs).
Proof.
  induction rs as [|r rs IH].
  - apply fmap_empty.
  - unfold groupby in *. cbn [fmap list_fmap zip zip_with foldr fst snd omap list_omap].
    destruct (group_key index r) as [k|] eqn:Hk; [| exact IH].
    cbn [tally foldr]. fold (tally (omap (group_key index) rs)).
    rewrite <- IH. apply map_eq; intros k'.
    unfold add_to_group. rewrite lookup_fmap.
    destruct (decide (k = k')) as [->|Hne].
    + rewrite lookup_partial_alter_eq, lookup_insert_eq, lookup_fmap. simpl.
      rewrite count_nonzero_cons_one.
      by destruct (foldr _ _ _ !! k').
    + rewrite lookup_partial_alter_ne, lookup_insert_ne, lookup_fmap by done.
      done.
Qed.

Lemma lookup_tally_cons (k : PivotKey) (ks : list PivotKey) (k' : PivotKey) :
  tally (k :: ks) !! k' =
    if decide (k = k') then Some (1 + default 0 (tally ks !! k'))
    else tally ks !! k'.
Proof.
  cbn [tally foldr]. fold (tally ks).
  destruct (decide (k = k')) as [->|Hne].
  - apply lookup_insert_eq.
  - by apply lookup_insert_ne.
Qed.

Lemma tally_app (ks1 ks2 : list PivotKey) :
  tally (ks1 ++ ks2) = merge_counts (tally ks1) (tally ks2).
Proof.
  induction ks1 as [|k ks1 IH].
  - by rewrite merge_counts_empty_l.
  - apply map_eq; intros k'.
    rewrite <- app_comm_cons, lookup_merge_counts, !lookup_tally_cons, IH.
    rewrite lookup_merge_counts.
    destruct (decide (k = k')); [| done].
    destruct (tally ks1 !! k'), (tally ks2 !! k'); simpl;
      try reflexivity; apply (f_equal Some); lia.
Qed.

Lemma total_count_insert (t : CountTable) (k : PivotKey) (v : Z) :
  total_count (<[k := v]> t) = v + total_count t - default 0 (t !! k).
Proof.
  unfold total_count.
  destruct (t !! k) as [y|] eqn:Hk; simpl.
  - rewrite <- insert_delete_eq.
    rewrite map_fold_insert_L; [| intros; lia | apply lookup_delete_eq].
    rewrite (map_fold_delete_L _ _ k y t); [lia | intros; lia | done].
  - rewrite map_fold_insert_L; [lia | intros; lia | done].
Qed.

Lemma total_count_tally (ks : list PivotKey) :
  total_count (tally ks) = Z.of_nat (length ks).
Proof.
  induction ks as [|k ks IH].
  - reflexivity.
  - cbn [tally foldr length]. fold (tally ks).
    rewrite total_count_insert, IH. lia.
Qed.

Lemma filter_eq_key_nil (ks : list PivotKey) (k : PivotKey) :
  k ∉ ks → List.filter (λ k', bool_decide (k' = k)) ks = [].
Proof.
  induction ks as [|k0 ks IH]; intros Hk; [done |].
  apply not_elem_of_cons in Hk as [Hne Hk]. simpl.
  rewrite bool_decide_eq_false_2 by congruence. by apply IH.
Qed.

Lemma lookup_tally (ks : list PivotKey) (k : PivotKey) :
  tally ks !! k =
    if bool_decide (k ∈ ks)
    then Some (Z.of_nat (length (List.filter (λ k', bool_decide (k' = k)) ks)))
    else None.
Proof.
  induction ks as [|k0 ks IH].
  - reflexivity.
  - cbn [tally foldr List.filter]. fold (tally ks).
    destruct (decide (k0 = k)) as [->|Hne].
    + rewrite lookup_insert_eq, IH.
      rewrite (bool_decide_eq_true_2 (k = k)) by done.
      rewrite (bool_decide_eq_true_2 (k ∈ k :: ks)) by left.
      case_bool_decide as Hin; simpl; f_equal; [lia |].
      by rewrite filter_eq_key_nil.
    + rewrite lookup_insert_ne, IH by done.
      rewrite (bool_decide_eq_false_2 (k0 = k)) by done.
      apply (f_equal (λ b : bool, if b then _ else _)).
      apply bool_decide_ext. rewrite elem_of_cons.
      split; [auto | intros [?|?]; [congruence | done]].
Qed.

(** ** The monad *)

Lemma bind_lift_ok {A B} (a : A) (k : A → M B) : lift (Ok a) ≫= k = k a.
Proof. unfold mbind, M_bind, lift. simpl. by destruct (k a). Qed.

Lemma bind_lift_raise {A B} (e : exn) (k : A → M B) :
  lift (Raise e) ≫= k = Run [] (Raise e).
Proof. reflexivity. Qed.

Lemma bind_ret {A B} (a : A) (k : A → M B) : mret a ≫= k = k a.
Proof. unfold mbind, M_bind, mret, M_ret. simpl. by destruct (k a). Qed.

Lemma outcome_bind {A B} (m : M A) (k : A → M B) :
  outcome (m ≫= k) =
    match outcome m with
    | Ok a => outcome (k a)
    | Raise e => Raise e
    end.
Proof. unfold mbind, M_bind. by destruct (outcome m). Qed.

(** ** Frames *)

Lemma select_fmap {A} (p : A → bool) (l : list A) :
  select (p <$> l) l = List.filter p l.
Proof.
  induction l as [|x l IH]; [done |].
  change (p <$> x :: l) with (p x :: (p <$> l)).
  cbn [select List.filter]. rewrite IH. by destruct (p x).
Qed.

Lemma elem_of_filter_bool {A} (p : A → bool) (l : list A) (x : A) :
  x ∈ List.filter p l ↔ x ∈ l ∧ p x = true.
Proof. rewrite !list_elem_of_In. apply List.filter_In. Qed.

Lemma lookup_drop_labels (labels : list string) (r : Row) (c : string) :
  c ∉ labels →
  filter (λ kv : string * string, kv.1 ∉ labels) r !! c = r !! c.
Proof.
  intros Hc. apply option_eq; intros x.
  rewrite map_lookup_filter_Some. simpl. tauto.
Qed.

Lemma elem_of_index_columns (cols : list string) (m s c : string) :
  c ∈ List.filter (λ c, bool_decide (c ∉ columns_difference cols [m; s])) cols
  ↔ c ∈ cols ∧ (c = m ∨ c = s).
Proof.
  unfold columns_difference.
  rewrite elem_of_filter_bool, bool_decide_eq_true, elem_of_filter_bool,
    bool_decide_eq_true.
  rewrite !not_elem_of_cons.
  split.
  - intros [Hc Hn]. split; [done |].
    destruct (decide (c = m)); [by left |].
    destruct (decide (c = s)); [by right |].
    exfalso. apply Hn. repeat split; try done. apply not_elem_of_nil.
  - intros [Hc Hms]. split; [done |]. intros [_ (Hm & Hs & _)].
    destruct Hms; contradiction.
Qed.

Lemma index_not_dropped (cols : list string) (m s c : string) :
  c = m ∨ c = s → c ∉ columns_difference cols [m; s].
Proof.
  intros Hc. unfold columns_difference.
  rewrite elem_of_filter_bool, bool_decide_eq_true, !not_elem_of_cons.
  intros [_ (Hm & Hs & _)]. destruct Hc; contradiction.
Qed.

Lemma omap_filter_fmap_ext {A B} (f : A → A) (p : A → bool) (g : A → option B)
    (l : list A) :
  (∀ x, p (f x) = p x) → (∀ x, g (f x) = g x) →
  omap g (List.filter p (f <$> l)) = omap g (List.filter p l).
Proof.
  intros Hp Hg. induction l as [|x l IH]; [done |].
  change (f <$> x :: l) with (f x :: (f <$> l)).
  cbn [List.filter]. rewrite Hp. destruct (p x); [| exact IH].
  change (omap g (f x :: List.filter p (f <$> l)))
    with (match g (f x) with
          | Some y => y :: omap g (List.filter p (f <$> l))
          | None => omap g (List.filter p (f <$> l))
          end).
  rewrite Hg, IH. reflexivity.
Qed.

Lemma pivot_keys_drop (config : Config) (labels : list string) (rs : list Row) :
  main_column config ∉ labels → secondary_column config ∉ labels →
  pivot_keys config ((λ r : Row, filter (λ kv : string * string, kv.1 ∉ labels) r) <$> rs)
  = pivot_keys config rs.
Proof.
  intros Hm Hs. unfold pivot_keys. apply omap_filter_fmap_ext.
  - intros r. unfold secondary_nonblank. by rewrite lookup_drop_labels.
  - intros r. unfold group_key. simpl. by rewrite !lookup_drop_labels.
Qed.

(** What [pivot_table] computes: the tally of the keys of the rows with a
    non-blank secondary value, or the [KeyError] of the key column the frame
    lacks. *)
Lemma pivot_table_spec (df : DataFrame) (config : Config) :
  pivot_table df config =
    if bool_decide (secondary_column config ∈ columns df) then
      if bool_decide (main_column config ∈ columns df) then
        Run [] (Ok (tally (pivot_keys config (rows df))))
      else Run [] (Raise (KeyError (main_column config)))
    else Run [] (Raise (KeyError (secondary_column config))).
Proof.
  unfold pivot_table, getitem. cbn [fst snd columns rows drop_columns].
  set (diff := columns_difference (columns df) [main_column config; secondary_column config]).
  set (kept := List.filter (λ c, bool_decide (c ∉ diff)) (columns df)).
  assert (Hm : main_column config ∉ diff) by (apply index_not_dropped; by left).
  assert (Hs : secondary_column config ∉ diff) by (apply index_not_dropped; by right).
  assert (Hkm : main_column config ∈ kept ↔ main_column config ∈ columns df).
  { unfold kept, diff. rewrite elem_of_index_columns. intuition. }
  assert (Hks : secondary_column config ∈ kept ↔ secondary_column config ∈ columns df).
  { unfold kept, diff. rewrite elem_of_index_columns. intuition. }
  rewrite (bool_decide_ext _ _ Hks).
  case_bool_decide as Hsec; [| apply bind_lift_raise].
  rewrite bind_lift_ok. unfold df_pivot_table, boolean_index.
  cbn [fst snd columns rows]. fold kept.
  rewrite (bool_decide_ext _ _ Hkm), (bool_decide_ext _ _ Hks).
  case_bool_decide as Hmain; [| reflexivity].
  rewrite (bool_decide_eq_true_2 _ Hsec).
  unfold lift. do 2 f_equal.
  rewrite groupby_ones_tally. f_equal.
  rewrite <- (pivot_keys_drop config diff (rows df)) by done.
  set (rs := (λ r : Row, filter _ r) <$> rows df).
  unfold pivot_keys. f_equal.
  rewrite <- (select_fmap (secondary_nonblank config) rs). f_equal.
  unfold astype_bool, str_strip. rewrite <- !list_fmap_compose.
  apply list_fmap_ext. intros _ r _. unfold secondary_nonblank. simpl.
  by destruct (r !! secondary_column config).
Qed.

(** ** What [filter_dataframe] computes *)

Lemma filter_true {A} (l : list A) : List.filter (λ _, true) l = l.
Proof. induction l as [|x l IH]; [done |]. simpl. by rewrite IH. Qed.

Lemma exclude_filter_spec (re : ReEngine) (df : DataFrame) (column pattern : string) :
  exclude_filter re df column pattern =
    if str_bool pattern && bool_decide (column ∉ columns df)
    then Run [] (Raise (KeyError column))
    else Run [] (Ok {| columns := columns df;
                       rows := List.filter (keeps re column pattern) (rows df) |}).
Proof.
  unfold exclude_filter, keeps, getitem.
  destruct (str_bool pattern); cbn [andb].
  - destruct (decide (column ∈ columns df)) as [Hc|Hc].
    + rewrite (bool_decide_eq_true_2 _ Hc).
      rewrite (bool_decide_eq_false_2 (column ∉ columns df)) by tauto.
      rewrite bind_lift_ok. unfold mret, M_ret, boolean_index. do 3 f_equal.
      unfold str_contains. rewrite <- !list_fmap_compose.
      apply select_fmap.
    + rewrite (bool_decide_eq_false_2 _ Hc).
      rewrite (bool_decide_eq_true_2 (column ∉ columns df)) by done.
      apply bind_lift_raise.
  - rewrite filter_true. by destruct df.
Qed.

Lemma lookup_fill_row (cols : list string) (r : Row) (c : string) :
  fill_row cols r !! c =
    if bool_decide (c ∈ cols) then Some (default EmptyString (r !! c)) else r !! c.
Proof.
  unfold fill_row. induction cols as [|c0 cols IH]; [done |].
  cbn [foldr]. destruct (decide (c0 = c)) as [->|Hne].
  - rewrite lookup_insert_eq, bool_decide_eq_true_2 by left. done.
  - rewrite lookup_insert_ne, IH by done.
    apply (f_equal (λ b : bool, if b then _ else _)).
    apply bool_decide_ext. rewrite elem_of_cons.
    split; [auto | intros [?|?]; [congruence | done]].
Qed.

Lemma fill_row_complete (cols : list string) (r : Row) :
  complete_row cols (fill_row cols r).
Proof.
  intros c Hc. rewrite lookup_fill_row, bool_decide_eq_true_2 by done. eauto.
Qed.

Lemma Forall_filter_bool {A} (P : A → Prop) (p : A → bool) (l : list A) :
  Forall P l → Forall P (List.filter p l).
Proof.
  induction 1 as [|x l Hx Hl IH]; [constructor |].
  simpl. destruct (p x); [by constructor | done].
Qed.

Lemma all_bool_fullmatch (re : ReEngine) (pat c : string) (cols : list string)
    (rs : list Row) :
  c ∈ cols → Forall (complete_row cols) rs →
  all_bool (str_fullmatch re pat ((λ r : Row, r !! c) <$> rs))
  = Some ((λ r : Row, re_fullmatch re pat (default EmptyString (r !! c))) <$> rs).
Proof.
  intros Hc. induction 1 as [|r rs Hr Hrs IH]; [done |].
  unfold str_fullmatch in *.
  change (all_bool ((re_fullmatch re pat <$> r !! c)
                    :: ((λ v : option string, re_fullmatch re pat <$> v)
                          <$> ((λ r : Row, r !! c) <$> rs)))
          = Some (re_fullmatch re pat (default EmptyString (r !! c))
                  :: ((λ r : Row, re_fullmatch re pat (default EmptyString (r !! c))) <$> rs))).
  destruct (Hr c Hc) as [x ->]. simpl. by rewrite IH.
Qed.

Lemma additional_filter_spec (re : ReEngine) (cols : list string) (rs : list Row)
    (f : string * string) :
  Forall (complete_row cols) rs →
  additional_filter re {| columns := cols; rows := rs |} f =
    Run (skipped cols [f])
        (Ok {| columns := cols; rows := List.filter (passes_filter re cols f) rs |}).
Proof.
  intros Hrs. unfold additional_filter, getitem, skipped, passes_filter.
  cbn [columns rows List.filter].
  case_bool_decide as Hc.
  - rewrite bool_decide_eq_false_2 by tauto.
    rewrite bind_lift_ok. unfold boolean_index_na.
    rewrite (all_bool_fullmatch re f.2 f.1 cols rs Hc Hrs).
    unfold try_except, lift, boolean_index. cbn [outcome columns rows].
    by rewrite select_fmap.
  - rewrite bool_decide_eq_true_2 by done.
    rewrite bind_lift_raise. unfold try_except. cbn [outcome events is_KeyError].
    by rewrite filter_true.
Qed.

Lemma skipped_cons (cols : list string) (f : string * string) (fs : list (string * string)) :
  skipped cols (f :: fs) = skipped cols [f] ++ skipped cols fs.
Proof.
  unfold skipped. cbn [List.filter]. by destruct (bool_decide (f.1 ∉ cols)).
Qed.

Lemma for_filters_spec (re : ReEngine) (cols : list string) (fs : list (string * string))
    (rs : list Row) :
  Forall (complete_row cols) rs →
  for_filters re {| columns := cols; rows := rs |} fs =
    Run (skipped cols fs) (Ok {| columns := cols; rows := apply_filters re cols fs rs |}).
Proof.
  revert rs. induction fs as [|f fs IH]; intros rs Hrs; [done |].
  cbn [for_filters apply_filters].
  rewrite additional_filter_spec by done.
  unfold mbind, M_bind. cbn [outcome events].
  rewrite IH by (by apply Forall_filter_bool).
  cbn [outcome events]. by rewrite <- skipped_cons.
Qed.

Lemma filter_dataframe_spec (re : ReEngine) (df : DataFrame) (config : Config) :
  let cols := columns (dropna_all_columns df) in
  filter_dataframe re df config =
    match missing_key config cols with
    | Some c => Run [] (Raise (KeyError c))
    | None =>
        Run (skipped cols (additional_filters config))
            (Ok {| columns := cols; rows := filtered_rows re config cols (rows df) |})
    end.
Proof.
  intros cols. unfold filter_dataframe, missing_key, filtered_rows.
  rewrite exclude_filter_spec. fold cols.
  destruct (str_bool (main_column_exclude config)
            && bool_decide (main_column config ∉ cols)); [done |].
  rewrite bind_ret || (unfold mbind, M_bind; cbn [outcome events]).
  rewrite exclude_filter_spec. cbn [columns rows dropna_all_columns].
  fold cols.
  destruct (str_bool (secondary_column_exclude config)
            && bool_decide (secondary_column config ∉ cols)); [done |].
  cbn [outcome events app]. unfold fillna_astype_str. cbn [columns rows].
  rewrite for_filters_spec.
  - reflexivity.
  - apply Forall_fmap, Forall_forall. intros r _. apply fill_row_complete.
Qed.

(** ** Aggregation: invariant and count conservation *)

Lemma apply_filters_Forall (re : ReEngine) (P : Row → Prop) (cols : list string)
    (fs : list (string * string)) (rs : list Row) :
  Forall P rs → Forall P (apply_filters re cols fs rs).
Proof.
  revert rs. induction fs as [|f fs IH]; intros rs Hrs; [done |].
  simpl. by apply IH, Forall_filter_bool.
Qed.

(** The frame [filter_dataframe] returns holds a string in every cell. *)
Lemma filter_dataframe_complete (re : ReEngine) (df df' : DataFrame) (config : Config) :
  outcome (filter_dataframe re df config) = Ok df' →
  Forall (complete_row (columns df')) (rows df').
Proof.
  rewrite filter_dataframe_spec.
  destruct (missing_key _ _); [done |]. cbn [outcome]. intros [= <-].
  cbn [columns rows]. unfold filtered_rows.
  apply apply_filters_Forall, Forall_fmap, Forall_forall.
  intros r _. apply fill_row_complete.
Qed.

Lemma tally_at_least_one (ks : list PivotKey) (k : PivotKey) (c : Z) :
  tally ks !! k = Some c → 1 ≤ c.
Proof.
  revert k c. induction ks as [|k0 ks IH]; intros k c; [done |].
  rewrite lookup_tally_cons. destruct (decide (k0 = k)) as [->|Hne].
  - intros [= <-]. destruct (tally ks !! k) as [c'|] eqn:Hc; simpl; [| lia].
    apply IH in Hc. lia.
  - apply IH.
Qed.

Lemma count_invariant_lookup (t : CountTable) :
  count_invariant t ↔ ∀ k c, t !! k = Some c → 1 ≤ c.
Proof.
  unfold count_invariant, entries. split.
  - intros [Hall _] k c Hk.
    rewrite Forall_forall in Hall. by apply (Hall (k, c)), elem_of_map_to_list.
  - intros H. split; [| apply NoDup_fst_map_to_list].
    apply Forall_forall. intros [k c] Hkc. by apply (H k), elem_of_map_to_list.
Qed.

(** C9: the table [pivot_table] returns stores counts of at least 1 under
    keys stored once, and [merge_counts] of two such tables is such a table:
    no operation stores a zero count. *)
Theorem count_table_invariant (df : DataFrame) (config : Config) (t a b : CountTable) :
  wf_config config = true →
  outcome (pivot_table df config) = Ok t →
  count_invariant a → count_invariant b →
  count_invariant t ∧ count_invariant (merge_counts a b).
Proof.
  intros _ Ht Ha Hb. rewrite !count_invariant_lookup in *. split.
  - rewrite pivot_table_spec in Ht.
    repeat case_bool_decide; try discriminate.
    injection Ht as <-. intros k c. apply tally_at_least_one.
  - intros k c. rewrite lookup_merge_counts.
    destruct (a !! k) as [x|] eqn:Hx, (b !! k) as [y|] eqn:Hy; intros [= <-].
    + apply Ha in Hx. apply Hb in Hy. lia.
    + by apply (Ha k).
    + by apply (Hb k).
Qed.

Lemma pivot_keys_complete (config : Config) (cols : list string) (rs : list Row) :
  main_column config ∈ cols → secondary_column config ∈ cols →
  Forall (complete_row cols) rs →
  pivot_keys config rs
  = (λ r : Row, (default EmptyString (r !! main_column config),
                 default EmptyString (r !! secondary_column config)))
      <$> List.filter (has_secondary config) rs.
Proof.
  intros Hm Hs. unfold pivot_keys.
  induction 1 as [|r rs Hr Hrs IH]; [done |].
  cbn [List.filter]. unfold secondary_nonblank at 1, has_secondary at 1.
  destruct (Hr _ Hs) as [s Es]. destruct (Hr _ Hm) as [m Em]. rewrite Es.
  destruct (str_bool (strip s)); [| exact IH].
  change (omap ?g (r :: ?l)) with (match g r with
                                   | Some y => y :: omap g l
                                   | None => omap g l
                                   end).
  unfold group_key at 1. cbn [fst snd].
  rewrite IH, fmap_cons. cbn beta. by rewrite Em, Es.
Qed.

Lemma length_filter_fmap {A B} (f : A → B) (q : B → bool) (l : list A) :
  length (List.filter q (f <$> l)) = length (List.filter (λ x, q (f x)) l).
Proof.
  induction l as [|x l IH]; [done |].
  change (f <$> x :: l) with (f x :: (f <$> l)). cbn [List.filter].
  destruct (q (f x)); simpl; by rewrite IH.
Qed.

Lemma length_filter_filter_ext {A} (P : A → Prop) (p q r : A → bool) (l : list A) :
  Forall P l → (∀ x, P x → p x && q x = r x) →
  length (List.filter q (List.filter p l)) = length (List.filter r l).
Proof.
  intros Hl Hext. induction Hl as [|x l Hx Hl IH]; [done |].
  cbn [List.filter]. rewrite <- (Hext x Hx).
  destruct (p x); cbn [andb List.filter]; [| exact IH].
  destruct (q x); simpl; by rewrite IH.
Qed.

(** ** Trimming

    [strip] leaves nothing exactly of the blank strings. *)

Lemma str_join_cons (c : string) (cs : list string) :
  str_join (c :: cs) = c +:+ str_join cs.
Proof. done. Qed.

Lemma str_join_chars (s : string) : str_join (chars s) = s.
Proof.
  remember (String.length s) as n eqn:Hn. revert s Hn.
  induction n as [n IH] using lt_wf_ind. intros s ->.
  assert (IH' : ∀ t, (String.length t < String.length s)%nat → str_join (chars t) = t).
  { intros t Ht. by apply (IH _ Ht). }
  clear IH. destruct s as [|a s1]; [done |].
  cbn [chars]. destruct (N_of_ascii a <? 192)%N.
  { rewrite str_join_cons, IH' by (simpl; lia). done. }
  destruct s1 as [|b s2].
  { done. }
  destruct (is_continuation b); cbn [negb].
  2: { rewrite str_join_cons, IH' by (simpl; lia). done. }
  destruct (N_of_ascii a <? 224)%N.
  { rewrite str_join_cons, IH' by (simpl; lia). done. }
  destruct s2 as [|c s3].
  { rewrite str_join_cons, IH' by (simpl; lia). done. }
  destruct (is_continuation c); cbn [negb].
  2: { rewrite str_join_cons, IH' by (simpl; lia). done. }
  destruct (N_of_ascii a <? 240)%N.
  { rewrite str_join_cons, IH' by (simpl; lia). done. }
  destruct s3 as [|d s4].
  { rewrite str_join_cons, IH' by (simpl; lia). done. }
  destruct (is_continuation d); rewrite str_join_cons, IH' by (simpl; lia); done.
Qed.

Lemma chars_nonempty (s : string) : Forall (λ c, c ≠ EmptyString) (chars s).
Proof.
  remember (String.length s) as n eqn:Hn. revert s Hn.
  induction n as [n IH] using lt_wf_ind. intros s ->.
  assert (IH' : ∀ t, (String.length t < String.length s)%nat →
                     Forall (λ c, c ≠ EmptyString) (chars t)).
  { intros t Ht. by apply (IH _ Ht). }
  clear IH. destruct s as [|a s1]; [by constructor |].
  cbn [chars].
  repeat (first
    [ apply List.Forall_cons; [discriminate | apply IH'; simpl; lia]
    | match goal with
      | |- context [if ?b then _ else _] => destruct b
      | |- context [match ?t with EmptyString => _ | String _ _ => _ end] => destruct t
      end ]).
Qed.

Lemma py_isspace_spec (c : string) :
  py_isspace c = true ↔ ∃ w, w ∈ whitespace ∧ c = utf8 w.
Proof.
  unfold py_isspace. rewrite existsb_exists. split.
  - intros (w & Hin & Heq). exists w. apply String.eqb_eq in Heq.
    split; [by apply list_elem_of_In | done].
  - intros (w & Hin & ->). exists w. split; [by apply list_elem_of_In |].
    apply String.eqb_refl.
Qed.

Lemma chars_utf8_whitespace (w : N) (rest : string) :
  w ∈ whitespace → chars (utf8 w +:+ rest) = utf8 w :: chars rest.
Proof.
  intros H. unfold whitespace in H.
  repeat (apply elem_of_cons in H as [-> | H]; [reflexivity |]).
  exfalso. exact (proj1 (elem_of_nil _) H).
Qed.

Lemma rstrip_nil (cs : list string) :
  rstrip cs = [] ↔ forallb py_isspace cs = true.
Proof.
  induction cs as [|c cs IH]; [done |]. cbn [rstrip forallb].
  rewrite andb_true_iff, <- IH.
  destruct (rstrip cs); [| split; [done | by intros [_ ?]]].
  destruct (py_isspace c); split; try done; by intros [? _].
Qed.

Lemma lstrip_forallb (cs : list string) :
  forallb py_isspace (lstrip cs) = forallb py_isspace cs.
Proof.
  induction cs as [|c cs IH]; [done |]. cbn [lstrip forallb].
  destruct (py_isspace c) eqn:Hc; [exact IH |]. cbn [forallb]. by rewrite Hc.
Qed.

Lemma lstrip_Forall (P : string → Prop) (cs : list string) :
  Forall P cs → Forall P (lstrip cs).
Proof.
  induction 1 as [|c cs Hc Hcs IH]; [by constructor |]. cbn [lstrip].
  destruct (py_isspace c); [exact IH | by constructor].
Qed.

Lemma rstrip_Forall (P : string → Prop) (cs : list string) :
  Forall P cs → Forall P (rstrip cs).
Proof.
  induction 1 as [|c cs Hc Hcs IH]; [by constructor |]. cbn [rstrip].
  destruct (rstrip cs) as [|t ts].
  - destruct (py_isspace c); constructor; [done | constructor].
  - by constructor.
Qed.

Lemma str_join_empty (cs : list string) :
  Forall (λ c, c ≠ EmptyString) cs → str_join cs = EmptyString → cs = [].
Proof.
  intros H. destruct H as [|c cs Hc _]; [done |].
  rewrite str_join_cons. destruct c; [done | discriminate].
Qed.

Lemma strip_empty (s : string) :
  strip s = EmptyString ↔ forallb py_isspace (chars s) = true.
Proof.
  unfold strip. rewrite <- lstrip_forallb, <- rstrip_nil. split.
  - apply str_join_empty, rstrip_Forall, lstrip_Forall, chars_nonempty.
  - by intros ->.
Qed.

Lemma chars_whitespace (ws : list N) :
  Forall (λ w, w ∈ whitespace) ws → chars (str_join (utf8 <$> ws)) = utf8 <$> ws.
Proof.
  induction 1 as [|w ws Hw _ IH]; [done |].
  rewrite fmap_cons, str_join_cons, chars_utf8_whitespace by done. by rewrite IH.
Qed.

Lemma all_whitespace_blank (s : string) :
  forallb py_isspace (chars s) = true ↔ blank s.
Proof.
  split.
  - intros H. rewrite forallb_forall in H.
    assert (Hall : Forall (λ c, ∃ w, w ∈ whitespace ∧ c = utf8 w) (chars s)).
    { apply Forall_forall. intros c Hc. apply py_isspace_spec, H.
      by apply list_elem_of_In. }
    rewrite <- (str_join_chars s). clear H.
    induction Hall as [|c cs (w & Hw & ->) _ (ws & Hws & IH)].
    + by exists [].
    + exists (w :: ws). split; [by constructor |].
      by rewrite fmap_cons, !str_join_cons, IH.
  - intros (ws & Hws & ->). rewrite chars_whitespace by done.
    apply forallb_forall. intros c Hc. apply list_elem_of_In in Hc.
    apply list_elem_of_fmap in Hc as (w & -> & Hw).
    apply py_isspace_spec. exists w. split; [| done].
    by apply (proj1 (Forall_forall _ _) Hws).
Qed.

Lemma strip_blank (s : string) : str_bool (strip s) = false ↔ blank s.
Proof.
  rewrite <- all_whitespace_blank, <- strip_empty. by destruct (strip s).
Qed.

(** C8: on the frame [filter_dataframe] returns, [pivot_table] returns a
    table whose counts sum to the number of rows that count, and a row counts
    exactly when its secondary value is not blank, that is, not made of
    whitespace characters only and not empty; a blank secondary value is in
    no key, and the count of a key is the number of rows carrying exactly
    that pair. *)
Theorem count_conservation (re : ReEngine) (config : Config) (df df' : DataFrame) :
  wf_config config = true →
  outcome (filter_dataframe re df config) = Ok df' →
  main_column config ∈ columns df' → secondary_column config ∈ columns df' →
  ∃ t : CountTable,
    pivot_table df' config = Run [] (Ok t) ∧
    total_count t = Z.of_nat (length (List.filter (has_secondary config) (rows df'))) ∧
    (∀ r, r ∈ rows df' →
          ∃ s, r !! secondary_column config = Some s ∧
               (has_secondary config r = false ↔ blank s)) ∧
    (∀ m s, blank s → t !! (m, s) = None) ∧
    (∀ k c, t !! k = Some c →
            c = Z.of_nat (length (List.filter (has_key config k) (rows df')))).
Proof.
  intros _ Hf Hm Hs.
  pose proof (filter_dataframe_complete re df df' config Hf) as Hc.
  exists (tally (pivot_keys config (rows df'))).
  rewrite pivot_table_spec, !bool_decide_eq_true_2 by done.
  split; [done |].
  rewrite (pivot_keys_complete config (columns df')) by done.
  set (key := λ r : Row, (default EmptyString (r !! main_column config),
                          default EmptyString (r !! secondary_column config))).
  assert (Hblank : ∀ m s, str_bool (strip s) = false →
                          (m, s) ∉ key <$> List.filter (has_secondary config) (rows df')).
  { intros m s Hb Hin. apply list_elem_of_fmap in Hin as (r & Hk & Hr).
    apply elem_of_filter_bool in Hr as [_ Hsec]. unfold has_secondary in Hsec.
    unfold key in Hk. injection Hk as _ ->.
    destruct (r !! secondary_column config); [| done].
    simpl in Hb. congruence. }
  assert (Hkey : ∀ k r, str_bool (strip k.2) = true →
                        complete_row (columns df') r →
                        has_secondary config r && bool_decide (key r = k)
                        = has_key config k r).
  { intros [m s] r Hk Hr. unfold has_secondary, has_key, key. cbn [fst snd] in *.
    destruct (Hr _ Hs) as [s' Es]. destruct (Hr _ Hm) as [m' Em].
    rewrite Es, Em. cbn [default].
    destruct (decide (m' = m ∧ s' = s)) as [[-> ->]|Hne].
    - by rewrite Hk, !bool_decide_eq_true_2.
    - rewrite !bool_decide_eq_false_2; [apply andb_false_r | |].
      + intros [[= ?] [= ?]]. tauto.
      + intros [= ? ?]. tauto. }
  repeat split.
  - by rewrite total_count_tally, length_fmap.
  - intros r Hr. destruct (proj1 (Forall_forall _ _) Hc r Hr _ Hs) as [s Es].
    exists s. split; [exact Es |]. unfold has_secondary. rewrite Es.
    apply strip_blank.
  - intros m s Hb. apply strip_blank in Hb.
    rewrite lookup_tally, bool_decide_eq_false_2; [done |].
    by apply Hblank.
  - intros [m s] c. rewrite lookup_tally. case_bool_decide as Hin; [| done].
    intros [= <-]. f_equal. rewrite length_filter_fmap.
    apply (length_filter_filter_ext (complete_row (columns df'))); [done |].
    intros r Hr. apply Hkey; [| done]. cbn [snd].
    destruct (str_bool (strip s)) eqn:Hb; [done |].
    by apply (Hblank m) in Hb.
Qed.

(** ** Additional filters on a column the frame lacks *)

Lemma apply_filters_app (re : ReEngine) (cols : list string)
    (fs1 fs2 : list (string * string)) (rs : list Row) :
  apply_filters re cols (fs1 ++ fs2) rs
  = apply_filters re cols fs2 (apply_filters re cols fs1 rs).
Proof.
  revert rs. induction fs1 as [|f fs1 IH]; intros rs; [done |]. simpl. apply IH.
Qed.

Lemma apply_filters_absent (re : ReEngine) (cols : list string) (c p : string)
    (fs : list (string * string)) (rs : list Row) :
  c ∉ cols → apply_filters re cols ((c, p) :: fs) rs = apply_filters re cols fs rs.
Proof.
  intros Hc. cbn [apply_filters]. f_equal.
  unfold passes_filter. cbn [fst]. rewrite bool_decide_eq_false_2 by done.
  apply filter_true.
Qed.

Lemma dropna_columns_subseteq (df : DataFrame) (c : string) :
  c ∈ columns (dropna_all_columns df) → c ∈ columns df.
Proof. cbn [dropna_all_columns columns]. rewrite elem_of_filter_bool. tauto. Qed.

Lemma skipped_app (cols : list string) (fs1 fs2 : list (string * string)) :
  skipped cols (fs1 ++ fs2) = skipped cols fs1 ++ skipped cols fs2.
Proof. unfold skipped. by rewrite List.filter_app, fmap_app. Qed.

(** C6: an additional filter on a column the batch does not have changes
    nothing in what [filter_dataframe] returns (no row is dropped for it, the
    other filters apply as without it, no exception comes from it), and its
    diagnostic is logged; the only exceptions of [filter_dataframe] are the
    [KeyError]s of a key column that the batch, its empty columns dropped,
    does not have. *)
Theorem missing_filter_column_skipped (re : ReEngine) (config : Config) (df : DataFrame)
    (fs1 fs2 : list (string * string)) (c p : string) :
  additional_filters config = fs1 ++ (c, p) :: fs2 →
  c ∉ columns df →
  let df' := dropna_all_columns df in
  outcome (filter_dataframe re df config)
    = outcome (filter_dataframe re df (with_filters config (fs1 ++ fs2))) ∧
  (∀ e, outcome (filter_dataframe re df config) = Raise e →
        (e = KeyError (main_column config) ∧ main_column config ∉ columns df') ∨
        (e = KeyError (secondary_column config) ∧ secondary_column config ∉ columns df')) ∧
  (∀ df', outcome (filter_dataframe re df config) = Ok df' →
          Log ERROR (MsgSkipFilter c) ∈ events (filter_dataframe re df config)).
Proof.
  intros Hfs Hc df'.
  assert (Hc' : c ∉ columns df').
  { intros Hin. by apply Hc, dropna_columns_subseteq. }
  rewrite !filter_dataframe_spec. fold df'.
  change (missing_key (with_filters config (fs1 ++ fs2)))
    with (missing_key config).
  unfold missing_key.
  destruct (str_bool (main_column_exclude config) && _) eqn:Hmain.
  { apply andb_true_iff in Hmain as [_ Hmain%bool_decide_eq_true].
    repeat split; [intros e [= <-]; by left | done]. }
  destruct (str_bool (secondary_column_exclude config) && _) eqn:Hsec.
  { apply andb_true_iff in Hsec as [_ Hsec%bool_decide_eq_true].
    repeat split; [intros e [= <-]; by right | done]. }
  cbn [outcome events]. repeat split; [| done |].
  - do 2 f_equal. unfold filtered_rows. cbn [with_filters additional_filters
      main_column main_column_exclude secondary_column secondary_column_exclude].
    rewrite Hfs, !apply_filters_app. by rewrite apply_filters_absent.
  - intros _ _. rewrite Hfs, skipped_app, skipped_cons.
    apply elem_of_app. right. apply elem_of_app. left.
    unfold skipped. cbn [List.filter fst].
    rewrite bool_decide_eq_true_2 by done. left.
Qed.

(** ** Full match against substring match *)




(** ** Routing by file size and the chunks of the reader *)

Lemma chunked_fuel_spec {A} (n fuel : nat) (l : list A) :
  (0 < n)%nat → (length l ≤ fuel)%nat →
  concat (chunked_fuel fuel n l) = l ∧
  Forall (λ c, 0 < length c ≤ n)%nat (chunked_fuel fuel n l) ∧
  ∀ i c, chunked_fuel fuel n l !! i = Some c →
         (S i < length (chunked_fuel fuel n l))%nat → length c = n.
Proof.
  intros Hn. revert l. induction fuel as [|fuel IH]; intros l Hl.
  - simpl. replace l with (@nil A) by
      (symmetry; by apply length_zero_iff_nil, Nat.le_0_r).
    repeat split; [constructor | intros i c Hi; by rewrite lookup_nil in Hi].
  - destruct l as [|x l]; [repeat split; [constructor | done] |].
    cbn [chunked_fuel].
    assert (Hd : (length (drop n (x :: l)) ≤ fuel)%nat).
    { rewrite length_drop. simpl in *. lia. }
    destruct (IH _ Hd) as (Hcat & Hall & Hfull).
    repeat split.
    + cbn [concat]. rewrite Hcat. apply take_drop.
    + constructor; [| done]. rewrite length_take. simpl. lia.
    + intros [|i] c Hc Hlen.
      * injection Hc as <-. cbn [length] in Hlen.
        destruct (chunked_fuel fuel n (drop n (x :: l))) eqn:Hrest;
          [simpl in Hlen; lia |].
        rewrite length_take. apply Nat.min_l.
        destruct (decide (n ≤ length (x :: l))%nat) as [|Hgt]; [done |].
        rewrite drop_ge in Hrest by lia.
        destruct fuel; discriminate.
      * cbn [length] in Hlen. apply (Hfull i c); [done | lia].
Qed.

Lemma chunksize_positive : (0 < N.to_nat CHUNKSIZE)%nat.
Proof. unfold CHUNKSIZE. lia. Qed.

(** The chunks of the reader: the records in order, in frames of 100,000
    rows, the last one possibly shorter, none empty. *)
Lemma read_csv_chunks_spec (f : CsvFile) :
  let chunks := read_csv_chunks f CHUNKSIZE false in
  concat (rows <$> chunks) = rows (read_csv f false) ∧
  Forall (λ ch, columns ch = header f ∧
                0 < Z.of_nat (length (rows ch)) ≤ 100000) chunks ∧
  ∀ i ch, chunks !! i = Some ch → (S i < length chunks)%nat →
          Z.of_nat (length (rows ch)) = 100000.
Proof.
  unfold read_csv_chunks, read_csv, chunked.
  destruct (chunked_fuel_spec (N.to_nat CHUNKSIZE) (length (records f)) (records f)
              chunksize_positive (Nat.le_refl _)) as (Hcat & Hall & Hfull).
  set (cs := chunked_fuel _ _ _) in *. cbn zeta. repeat split.
  - rewrite <- Hcat. cbn [frame_of rows].
    clear. induction cs as [|c cs IH]; [done |].
    rewrite !fmap_cons. cbn [concat frame_of rows]. by rewrite fmap_app, <- IH.
  - apply Forall_fmap. eapply Forall_impl; [exact Hall |].
    intros c Hc. unfold compose. cbn [frame_of columns rows]. rewrite length_fmap.
    unfold CHUNKSIZE in Hc. split; [done | lia].
  - intros i ch Hi Hlen. rewrite length_fmap in Hlen.
    rewrite list_lookup_fmap in Hi.
    destruct (cs !! i) as [c|] eqn:Hc; [| done]. injection Hi as <-.
    cbn [frame_of rows]. rewrite length_fmap, (Hfull i c Hc Hlen).
    unfold CHUNKSIZE. lia.
Qed.

(** C10, as the code has it: a file of at most [MAX_FILE_SIZE] = 104857600
    bytes (100 MiB) is read, filtered and aggregated at once; a file strictly
    larger goes through [pivot_chunked_file], which folds over chunks of
    100,000 rows. *)
Theorem pivot_file_routing (re : ReEngine) (f : CsvFile) (config : Config) :
  MAX_FILE_SIZE = 104857600 ∧
  (file_size f ≤ 104857600 →
   pivot_file re f config = pivot_whole_file re f config) ∧
  (104857600 < file_size f →
   pivot_file re f config = pivot_chunked_file re f config ∧
   pivot_chunked_file re f config
     = for_chunks re config (read_csv_chunks f CHUNKSIZE false) None ∧
   concat (rows <$> read_csv_chunks f CHUNKSIZE false) = rows (read_csv f false) ∧
   Forall (λ ch, columns ch = header f ∧
                 0 < Z.of_nat (length (rows ch)) ≤ 100000)
          (read_csv_chunks f CHUNKSIZE false) ∧
   ∀ i ch, read_csv_chunks f CHUNKSIZE false !! i = Some ch →
           (S i < length (read_csv_chunks f CHUNKSIZE false))%nat →
           Z.of_nat (length (rows ch)) = 100000).
Proof.
  split; [reflexivity |]. unfold pivot_file.
  change MAX_FILE_SIZE with 104857600. split.
  - intros Hsize. destruct (file_size f >? 104857600) eqn:E; [lia | done].
  - intros Hsize. destruct (file_size f >? 104857600) eqn:E; [| lia].
    split; [done |]. split; [done |]. apply read_csv_chunks_spec.
Qed.

(** C10, the claim as stated fails at the threshold itself: a file of exactly
    104857600 bytes is at the threshold, yet [pivot_file] takes the whole-file
    branch, and here its result is not the one of the chunked branch. *)
Lemma at_threshold_not_chunked :
  MAX_FILE_SIZE ≤ file_size boundary_file ∧
  pivot_file literal_re boundary_file config_uk
    = pivot_whole_file literal_re boundary_file config_uk ∧
  outcome (pivot_file literal_re boundary_file config_uk)
    = Ok (Some {[ ("b", "y") := 1 ]}) ∧
  outcome (pivot_chunked_file literal_re boundary_file config_uk)
    = Ok (Some {[ ("a", "NA") := 1; ("b", "y") := 1 ]}) ∧
  pivot_file literal_re boundary_file config_uk
    ≠ pivot_chunked_file literal_re boundary_file config_uk.
Proof.
  assert (Hwhole : outcome (pivot_file literal_re boundary_file config_uk)
                   = Ok (Some {[ ("b", "y") := 1 ]})) by reflexivity.
  assert (Hchunked : outcome (pivot_chunked_file literal_re boundary_file config_uk)
                     = Ok (Some {[ ("a", "NA") := 1; ("b", "y") := 1 ]}))
    by reflexivity.
  split; [discriminate |]. split; [reflexivity |].
  split; [exact Hwhole |]. split; [exact Hchunked |].
  intros H.
  apply (f_equal (λ m, match outcome m with
                       | Ok (Some t) => t !! ("a", "NA")
                       | _ => None
                       end)) in H.
  vm_compute in H. discriminate H.
Qed.

(** ** Chunked against whole-batch aggregation *)

Lemma bind_assoc {A B C} (m : M A) (f : A → M B) (g : B → M C) :
  (m ≫= f) ≫= g = m ≫= (λ a, f a ≫= g).
Proof.
  unfold mbind, M_bind. destruct m as [evs [a|e]]; cbn [outcome events]; [| done].
  destruct (f a) as [evs' [b|e]]; cbn [outcome events]; [| done].
  by rewrite app_assoc.
Qed.

Lemma bind_ext {A B} (m : M A) (k k' : A → M B) :
  (∀ a, k a = k' a) → m ≫= k = m ≫= k'.
Proof.
  intros H. unfold mbind, M_bind. destruct (outcome m); [| done]. by rewrite H.
Qed.

Lemma for_chunks_cons (re : ReEngine) (config : Config) (chunk : DataFrame)
    (reader : list DataFrame) (overall : option CountTable) :
  for_chunks re config (chunk :: reader) overall =
    filter_then_pivot re chunk config ≫= λ t,
      for_chunks re config reader (accumulate overall t).
Proof.
  cbn [for_chunks]. unfold filter_then_pivot. rewrite bind_assoc.
  apply bind_ext; intros filtered. apply bind_ext; intros t.
  unfold accumulate. by destruct (df_empty t), overall.
Qed.

Lemma merge_counts_eq_empty (a b : CountTable) :
  merge_counts a b = ∅ → a = ∅ ∧ b = ∅.
Proof.
  intros H. split; apply map_eq; intros k; rewrite lookup_empty;
    apply (f_equal (.!! k)) in H; rewrite lookup_merge_counts, lookup_empty in H;
    by destruct (a !! k), (b !! k).
Qed.

Lemma foldl_merge_eq_empty (ts : list CountTable) (a : CountTable) :
  foldl merge_counts a ts = ∅ → a = ∅.
Proof.
  revert a. induction ts as [|t ts IH]; intros a; [done |].
  cbn [foldl]. intros H. by apply IH, merge_counts_eq_empty in H as [? _].
Qed.

Lemma foldl_accumulate_some (ts : list CountTable) (o : CountTable) :
  foldl accumulate (Some o) ts = Some (foldl merge_counts o ts).
Proof.
  revert o. induction ts as [|t ts IH]; intros o; [done |].
  cbn [foldl]. unfold accumulate at 2, df_empty.
  case_bool_decide as Ht; [| apply IH].
  subst t. rewrite merge_counts_empty_r. apply IH.
Qed.

(** What the loop of [pivot_chunked_file] leaves in [overall_pivot_df]: the
    merge of the tables of the chunks, but [None] where that merge is empty. *)
Lemma foldl_accumulate_none (ts : list CountTable) :
  foldl accumulate None ts =
    if df_empty (foldl merge_counts ∅ ts) then None
    else Some (foldl merge_counts ∅ ts).
Proof.
  induction ts as [|t ts IH]; [done |].
  cbn [foldl]. rewrite merge_counts_empty_l.
  unfold accumulate at 2, df_empty at 1.
  case_bool_decide as Ht; [by subst t |].
  rewrite foldl_accumulate_some. unfold df_empty.
  rewrite bool_decide_eq_false_2; [done |].
  intros H. by apply foldl_merge_eq_empty in H.
Qed.

Lemma for_chunks_outcome (re : ReEngine) (config : Config) (reader : list DataFrame)
    (ts : list CountTable) (overall : option CountTable) :
  Forall2 (λ chunk t, outcome (filter_then_pivot re chunk config) = Ok t) reader ts →
  outcome (for_chunks re config reader overall) = Ok (foldl accumulate overall ts).
Proof.
  intros H. revert overall. induction H as [|chunk t reader ts Ht _ IH]; intros overall.
  - reflexivity.
  - rewrite for_chunks_cons, outcome_bind, Ht. apply IH.
Qed.


Lemma filter_all_true {A} (p : A → bool) (l : list A) :
  (∀ x, x ∈ l → p x = true) → List.filter p l = l.
Proof.
  induction l as [|x l IH]; intros H; [done |].
  simpl. rewrite (H x) by left. f_equal. apply IH. intros y Hy. apply H. by right.
Qed.

(** [dropna] drops no column of a frame that has a row and no missing cell. *)
Lemma dropna_complete (cols : list string) (rs : list Row) :
  rs ≠ [] → Forall (complete_row cols) rs →
  columns (dropna_all_columns {| columns := cols; rows := rs |}) = cols.
Proof.
  intros Hne Hrs. cbn [dropna_all_columns columns].
  apply filter_all_true. intros c Hc. apply Nat.ltb_lt.
  unfold count_notna. cbn [rows].
  destruct Hrs as [|r rs Hr _]; [done |].
  cbn [List.filter]. rewrite bool_decide_eq_true_2 by (by apply Hr).
  simpl. lia.
Qed.

Lemma filter_then_pivot_complete (re : ReEngine) (config : Config) (cols : list string)
    (rs : list Row) :
  rs ≠ [] → Forall (complete_row cols) rs →
  outcome (filter_then_pivot re {| columns := cols; rows := rs |} config) =
    match schema_error config cols with
    | Some e => Raise e
    | None => Ok (table_of re config cols rs)
    end.
Proof.
  intros Hne Hrs. unfold filter_then_pivot, schema_error, table_of.
  rewrite outcome_bind, filter_dataframe_spec, dropna_complete by done.
  destruct (missing_key config cols); [done |].
  cbn [outcome rows]. rewrite pivot_table_spec. cbn [columns rows].
  by repeat case_bool_decide.
Qed.

Lemma apply_filters_rows_app (re : ReEngine) (cols : list string)
    (fs : list (string * string)) (rs1 rs2 : list Row) :
  apply_filters re cols fs (rs1 ++ rs2)
  = apply_filters re cols fs rs1 ++ apply_filters re cols fs rs2.
Proof.
  revert rs1 rs2. induction fs as [|f fs IH]; intros rs1 rs2; [done |].
  cbn [apply_filters]. by rewrite List.filter_app, IH.
Qed.

Lemma table_of_app (re : ReEngine) (config : Config) (cols : list string)
    (rs1 rs2 : list Row) :
  table_of re config cols (rs1 ++ rs2)
  = merge_counts (table_of re config cols rs1) (table_of re config cols rs2).
Proof.
  unfold table_of, pivot_keys, filtered_rows.
  rewrite !List.filter_app, fmap_app, apply_filters_rows_app, List.filter_app.
  rewrite omap_app. apply tally_app.
Qed.

Lemma table_of_nil (re : ReEngine) (config : Config) (cols : list string) :
  table_of re config cols [] = ∅.
Proof.
  unfold table_of, filtered_rows. cbn [List.filter fmap list_fmap].
  induction (additional_filters config) as [|f fs IH]; [done |]. exact IH.
Qed.

Lemma foldl_merge_table_of (re : ReEngine) (config : Config) (cols : list string)
    (chunks : list (list Row)) (running : CountTable) :
  foldl merge_counts running (table_of re config cols <$> chunks)
  = merge_counts running (table_of re config cols (concat chunks)).
Proof.
  revert running. induction chunks as [|ch chunks IH]; intros running.
  - cbn [fmap list_fmap foldl concat].
    by rewrite table_of_nil, merge_counts_empty_r.
  - rewrite fmap_cons. cbn [foldl concat].
    by rewrite IH, table_of_app, merge_counts_assoc.
Qed.



(** ** Exceptions and the loop over the input files *)

Lemma missing_key_cases (config : Config) (cols : list string) (c : string) :
  missing_key config cols = Some c →
  c = main_column config ∨ c = secondary_column config.
Proof.
  unfold missing_key. destruct (_ && _); [intros [= <-]; by left |].
  destruct (_ && _); [intros [= <-]; by right | done].
Qed.

(** A frame without one of the two key columns makes [filter_dataframe] or
    [pivot_table] raise the [KeyError] of a key column. *)
Lemma filter_then_pivot_missing (re : ReEngine) (df : DataFrame) (config : Config) :
  main_column config ∉ columns df ∨ secondary_column config ∉ columns df →
  ∃ c, (c = main_column config ∨ c = secondary_column config) ∧
       outcome (filter_then_pivot re df config) = Raise (KeyError c).
Proof.
  intros Hmiss. unfold filter_then_pivot.
  rewrite outcome_bind, filter_dataframe_spec.
  destruct (missing_key config _) as [c|] eqn:Hk.
  { exists c. split; [by eapply missing_key_cases | done]. }
  cbn [outcome]. rewrite pivot_table_spec. cbn [columns].
  case_bool_decide as Hs; [| eexists; split; [by right | done]].
  case_bool_decide as Hm; [| eexists; split; [by left | done]].
  apply dropna_columns_subseteq in Hs, Hm. tauto.
Qed.

Lemma pivot_whole_file_bind (re : ReEngine) (f : CsvFile) (config : Config) :
  pivot_whole_file re f config
  = filter_then_pivot re (read_csv f true) config ≫= λ t, mret (Some t).
Proof. unfold pivot_whole_file, filter_then_pivot. by rewrite bind_assoc. Qed.

Lemma read_csv_chunks_cons (f : CsvFile) (na_filter : bool) :
  records f ≠ [] →
  ∃ chunk reader, read_csv_chunks f CHUNKSIZE na_filter = chunk :: reader ∧
                  columns chunk = header f.
Proof.
  intros Hne. unfold read_csv_chunks, chunked.
  destruct (records f) as [|r rs]; [done |].
  cbn [length chunked_fuel]. rewrite fmap_cons. eauto.
Qed.

Lemma pivot_file_missing (re : ReEngine) (f : CsvFile) (config : Config) :
  main_column config ∉ header f ∨ secondary_column config ∉ header f →
  records f ≠ [] →
  ∃ c, (c = main_column config ∨ c = secondary_column config) ∧
       outcome (pivot_file re f config) = Raise (KeyError c).
Proof.
  intros Hmiss Hne. unfold pivot_file. destruct (_ >? _).
  - destruct (read_csv_chunks_cons f false Hne) as (chunk & reader & Hr & Hc).
    destruct (filter_then_pivot_missing re chunk config) as (c & Hcase & Hraise).
    { by rewrite Hc. }
    exists c. split; [done |].
    unfold pivot_chunked_file. cbn zeta.
    by rewrite Hr, for_chunks_cons, outcome_bind, Hraise.
  - destruct (filter_then_pivot_missing re (read_csv f true) config)
      as (c & Hcase & Hraise); [done |].
    exists c. split; [done |].
    by rewrite pivot_whole_file_bind, outcome_bind, Hraise.
Qed.

(** An exception of [pivot_file] other than [ZeroDivisionError] leaves
    [main]: the files behind the failing one are not touched. *)
Lemma main_uncaught (re : ReEngine) (config : Config) (path : string) (f : CsvFile)
    (rest : list (string * CsvFile)) (e : exn) :
  outcome (pivot_file re f config) = Raise e →
  is_ZeroDivisionError e = false →
  main re config ((path, f) :: rest) =
    Run ([Log INFO MsgStarting; Log DEBUG (MsgDiscovered (path :: rest.*1));
          Log DEBUG (MsgProcessing path)] ++ events (pivot_file re f config))
        (Raise e).
Proof.
  intros He Hz. unfold main. cbn [for_input_files].
  unfold try_except, mbind, M_bind, emit.
  cbn [outcome events]. rewrite He. cbn [outcome events]. rewrite Hz.
  cbn [outcome events fmap list_fmap fst app]. reflexivity.
Qed.

(** C4 on the code: a file without the main or the secondary column makes
    [pivot_file] raise a [KeyError], which the handler for
    [ZeroDivisionError] does not catch: [main] ends with that exception
    after the record "Processing file", without a record for the failure and
    without a look at the files that remain. *)
Theorem missing_key_column_aborts_run (re : ReEngine) (config : Config) (path : string)
    (f : CsvFile) (rest : list (string * CsvFile)) :
  main_column config ∉ header f ∨ secondary_column config ∉ header f →
  records f ≠ [] →
  ∃ c, (c = main_column config ∨ c = secondary_column config) ∧
       outcome (pivot_file re f config) = Raise (KeyError c) ∧
       main re config ((path, f) :: rest) =
         Run ([Log INFO MsgStarting; Log DEBUG (MsgDiscovered (path :: rest.*1));
               Log DEBUG (MsgProcessing path)] ++ events (pivot_file re f config))
             (Raise (KeyError c)).
Proof.
  intros Hmiss Hne.
  destruct (pivot_file_missing re f config Hmiss Hne) as (c & Hc & Hraise).
  exists c. split; [done |]. split; [done |]. by apply main_uncaught.
Qed.

(** C5 on the code: when the table of every chunk is empty, the loop of
    [pivot_chunked_file] never leaves [None], [pivot_file] returns [None]
    and not an empty table, and [to_excel] on [None] is an [AttributeError]
    that ends [main]. *)
Theorem empty_chunked_result_is_none (re : ReEngine) (config : Config) (path : string)
    (f : CsvFile) (rest : list (string * CsvFile)) :
  MAX_FILE_SIZE < file_size f →
  Forall (λ chunk, outcome (filter_then_pivot re chunk config) = Ok ∅)
         (read_csv_chunks f CHUNKSIZE false) →
  outcome (pivot_file re f config) = Ok None ∧
  outcome (main re config ((path, f) :: rest)) = Raise AttributeError.
Proof.
  intros Hsize Hall.
  assert (Hnone : outcome (pivot_file re f config) = Ok None).
  { unfold pivot_file. destruct (_ >? _) eqn:E; [| lia].
    unfold pivot_chunked_file. cbn zeta.
    induction Hall as [|chunk reader Hc _ IH]; [done |].
    by rewrite for_chunks_cons, outcome_bind, Hc. }
  split; [done |].
  unfold main. cbn [for_input_files].
  unfold try_except, mbind, M_bind, emit.
  cbn [outcome events]. rewrite Hnone. by cbn.
Qed.

(** Whole-file mode on a file whose "Anchor" column is empty throughout: the
    column is read as missing, dropped as an empty column, and the secondary
    exclusion raises. *)
Lemma empty_anchor_column_whole_file :
  pivot_file literal_re
    {| file_size := 1000; header := ["Destination"; "Anchor"; "Follow"];
       records := [["NY"; ""; "true"]; ["LA"; ""; "false"]] |} config_nl
  = Run [] (Raise (KeyError "Anchor")).
Proof. reflexivity. Qed.

(** Whole-file mode on rows none of which is counted: an empty table. *)
Lemma empty_whole_file_result :
  file_size small_blank_anchor_file ≤ MAX_FILE_SIZE ∧
  pivot_file literal_re small_blank_anchor_file config_nl = Run [] (Ok (Some ∅)) ∧
  main literal_re config_nl [("in/a.csv", small_blank_anchor_file)] =
    Run [Log INFO MsgStarting; Log DEBUG (MsgDiscovered ["in/a.csv"]);
         Log DEBUG (MsgProcessing "in/a.csv"); ToExcel "in/a.csv" ∅ false;
         Log INFO MsgClosing] (Ok tt).
Proof. split; [discriminate |]. split; reflexivity. Qed.

(** ** The theorems at sample inputs *)


Lemma count_conservation_witness :
  outcome (filter_dataframe literal_re spaces_frame config_nl) = Ok spaces_filtered ∧
  pivot_table spaces_filtered config_nl = Run [] (Ok spaces_table) ∧
  total_count spaces_table = 3 ∧
  blank nbsp ∧
  spaces_table !! ("NY", nbsp) = None.
Proof.
  assert (Hwf : wf_config config_nl = true) by reflexivity.
  assert (Hf : outcome (filter_dataframe literal_re spaces_frame config_nl)
               = Ok spaces_filtered) by reflexivity.
  assert (Hm : main_column config_nl ∈ columns spaces_filtered) by left.
  assert (Hs : secondary_column config_nl ∈ columns spaces_filtered)
    by (right; left).
  assert (Hb : blank nbsp).
  { exists [160%N]. split; [| reflexivity].
    apply List.Forall_cons; [| apply List.Forall_nil].
    unfold whitespace. do 11 right. left. }
  destruct (count_conservation literal_re config_nl spaces_frame spaces_filtered
              Hwf Hf Hm Hs) as (t & Ht & Htotal & _ & Hblank & _).
  split; [exact Hf |].
  assert (Et : t = spaces_table).
  { assert (E : pivot_table spaces_filtered config_nl = Run [] (Ok spaces_table))
      by reflexivity.
    rewrite E in Ht. injection Ht as Ht. symmetry. exact Ht. }
  subst t. split; [exact Ht |]. split; [rewrite Htotal; reflexivity |].
  split; [exact Hb |]. exact (Hblank "NY" nbsp Hb).
Defined.

Lemma count_table_invariant_witness :
  outcome (pivot_table example_filtered config_nl) = Ok example_table ∧
  count_invariant example_table ∧
  count_invariant (merge_counts example_table {[ ("NY", "Blue") := 1 ]}).
Proof.
  assert (Hwf : wf_config config_nl = true) by reflexivity.
  assert (Ht : outcome (pivot_table example_filtered config_nl) = Ok example_table)
    by reflexivity.
  assert (Ha : count_invariant example_table).
  { apply count_invariant_lookup. intros k c Hk.
    apply elem_of_map_to_list in Hk.
    assert (E : map_to_list example_table = [("NY", "Blue", 2); ("LA", "Red", 1)])
      by reflexivity.
    rewrite E in Hk.
    repeat (apply elem_of_cons in Hk as [[= -> ->]|Hk]; [lia |]).
    exfalso. exact (proj1 (elem_of_nil _) Hk). }
  assert (Hb : count_invariant ({[ ("NY", "Blue") := 1 ]} : CountTable)).
  { apply count_invariant_lookup. intros k c Hk.
    apply lookup_singleton_Some in Hk as [_ <-]. lia. }
  split; [exact Ht |].
  exact (count_table_invariant example_filtered config_nl example_table example_table
           {[ ("NY", "Blue") := 1 ]} Hwf Ht Ha Hb).
Defined.

Lemma missing_filter_column_skipped_witness :
  additional_filters config_uk = [] ++ ("Follow", "FALSE") :: [] ∧
  ("Follow" ∉ columns no_follow_frame) ∧
  outcome (filter_dataframe literal_re no_follow_frame config_uk)
    = outcome (filter_dataframe literal_re no_follow_frame (with_filters config_uk [])) ∧
  Log ERROR (MsgSkipFilter "Follow")
    ∈ events (filter_dataframe literal_re no_follow_frame config_uk).
Proof.
  assert (Hfs : additional_filters config_uk = [] ++ ("Follow", "FALSE") :: [])
    by reflexivity.
  assert (Hc : "Follow" ∉ columns no_follow_frame).
  { intros Hin. repeat (apply elem_of_cons in Hin as [Hin|Hin]; [discriminate Hin |]).
    exact (proj1 (elem_of_nil _) Hin). }
  destruct (missing_filter_column_skipped literal_re config_uk no_follow_frame
              [] [] "Follow" "FALSE" Hfs Hc) as (Hsame & _ & Hlog).
  split; [exact Hfs |]. split; [exact Hc |]. split; [exact Hsame |].
  eapply Hlog. reflexivity.
Defined.


Lemma pivot_file_routing_witness :
  (file_size boundary_file ≤ 104857600 ∧
   pivot_file literal_re boundary_file config_uk
     = pivot_whole_file literal_re boundary_file config_uk) ∧
  (104857600 < file_size blank_anchor_file ∧
   pivot_file literal_re blank_anchor_file config_nl
     = pivot_chunked_file literal_re blank_anchor_file config_nl).
Proof.
  assert (H1 : file_size boundary_file ≤ 104857600) by discriminate.
  assert (H2 : 104857600 < file_size blank_anchor_file) by reflexivity.
  split.
  - split; [exact H1 |].
    exact (proj1 (proj2 (pivot_file_routing literal_re boundary_file config_uk)) H1).
  - split; [exact H2 |].
    exact (proj1 (proj2 (proj2 (pivot_file_routing literal_re blank_anchor_file
                                  config_nl)) H2)).
Defined.

Lemma missing_key_column_aborts_run_witness :
  (main_column config_nl ∉ header no_destination_file) ∧
  outcome (pivot_file literal_re no_destination_file config_nl)
    = Raise (KeyError "Destination") ∧
  main literal_re config_nl
       [("in/a.csv", no_destination_file); ("in/b.csv", good_file)]
    = Run [Log INFO MsgStarting; Log DEBUG (MsgDiscovered ["in/a.csv"; "in/b.csv"]);
           Log DEBUG (MsgProcessing "in/a.csv")]
          (Raise (KeyError "Destination")) ∧
  main literal_re config_nl [("in/b.csv", good_file)]
    = Run [Log INFO MsgStarting; Log DEBUG (MsgDiscovered ["in/b.csv"]);
           Log DEBUG (MsgProcessing "in/b.csv");
           ToExcel "in/b.csv" {[ ("NY", "Blue") := 2; ("LA", "Red") := 1 ]} false;
           Log INFO MsgClosing]
          (Ok tt).
Proof.
  assert (Hm : main_column config_nl ∉ header no_destination_file).
  { intros Hin. repeat (apply elem_of_cons in Hin as [Hin|Hin]; [discriminate Hin |]).
    exact (proj1 (elem_of_nil _) Hin). }
  assert (Hne : records no_destination_file ≠ []) by discriminate.
  destruct (missing_key_column_aborts_run literal_re config_nl "in/a.csv"
              no_destination_file [("in/b.csv", good_file)] (or_introl Hm) Hne)
    as (c & _ & Hraise & Hmain).
  assert (Ec : c = "Destination").
  { assert (E : outcome (pivot_file literal_re no_destination_file config_nl)
                = Raise (KeyError "Destination")) by reflexivity.
    rewrite E in Hraise. injection Hraise as Hraise. symmetry. exact Hraise. }
  subst c. split; [exact Hm |]. split; [exact Hraise |].
  split; [| reflexivity].
  rewrite Hmain. reflexivity.
Defined.

Lemma empty_chunked_result_is_none_witness :
  MAX_FILE_SIZE < file_size blank_anchor_file ∧
  outcome (pivot_file literal_re blank_anchor_file config_nl) = Ok None ∧
  outcome (main literal_re config_nl
             [("in/a.csv", blank_anchor_file); ("in/b.csv", good_file)])
    = Raise AttributeError.
Proof.
  assert (Hsize : MAX_FILE_SIZE < file_size blank_anchor_file) by reflexivity.
  assert (Hall : Forall (λ chunk, outcome (filter_then_pivot literal_re chunk config_nl)
                                  = Ok ∅)
                        (read_csv_chunks blank_anchor_file CHUNKSIZE false)).
  { assert (E : read_csv_chunks blank_anchor_file CHUNKSIZE false
                = [read_csv blank_anchor_file false]) by reflexivity.
    rewrite E. apply List.Forall_cons; [reflexivity | apply List.Forall_nil]. }
  split; [exact Hsize |].
  exact (empty_chunked_result_is_none literal_re config_nl "in/a.csv" blank_anchor_file
           [("in/b.csv", good_file)] Hsize Hall).
Defined.

(** * Further properties of the pipeline *)

(** ** The merge keeps the total *)

Lemma merge_counts_insert_l (m b : CountTable) (k : PivotKey) (x : Z) :
  m !! k = None →
  merge_counts (<[k := x]> m) b = <[k := x + default 0 (b !! k)]> (merge_counts m b).
Proof.
  intros Hk. apply map_eq; intros k'. rewrite lookup_merge_counts.
  destruct (decide (k = k')) as [<-|Hne].
  - rewrite !lookup_insert_eq. destruct (b !! k); simpl; [done |].
    apply (f_equal Some). lia.
  - rewrite !lookup_insert_ne, lookup_merge_counts by done. done.
Qed.

(** X1: the counts of a merged table sum to the two totals: merging neither
    loses nor invents an occurrence. *)
Theorem merge_counts_total (a b : CountTable) :
  total_count (merge_counts a b) = total_count a + total_count b.
Proof.
  induction a as [|k x m Hk IH] using map_ind.
  - rewrite merge_counts_empty_l. unfold total_count at 2.
    rewrite map_fold_empty. lia.
  - rewrite merge_counts_insert_l, !total_count_insert, IH by done.
    rewrite lookup_merge_counts, Hk. destruct (b !! k); simpl; lia.
Qed.

(** ** [filter_dataframe], one row at a time *)

Lemma filter_fmap_comm {A B} (f : A → B) (p : B → bool) (l : list A) :
  List.filter p (f <$> l) = f <$> List.filter (λ x, p (f x)) l.
Proof.
  induction l as [|x l IH]; [done |].
  rewrite fmap_cons. cbn [List.filter]. destruct (p (f x)); [| exact IH].
  by rewrite fmap_cons, IH.
Qed.

Lemma filter_filter_and {A} (p q : A → bool) (l : list A) :
  List.filter q (List.filter p l) = List.filter (λ x, p x && q x) l.
Proof.
  induction l as [|x l IH]; [done |].
  cbn [List.filter]. destruct (p x); cbn [andb List.filter]; [| exact IH].
  destruct (q x); by rewrite IH.
Qed.

Lemma apply_filters_forallb (re : ReEngine) (cols : list string)
    (fs : list (string * string)) (rs : list Row) :
  apply_filters re cols fs rs
  = List.filter (λ r, forallb (λ f, passes_filter re cols f r) fs) rs.
Proof.
  revert rs. induction fs as [|f fs IH]; intros rs.
  - cbn [apply_filters forallb]. by rewrite filter_true.
  - cbn [apply_filters forallb]. by rewrite IH, filter_filter_and.
Qed.

Lemma count_notna_positive (df : DataFrame) (c : string) :
  (0 <? count_notna df c)%nat = true ↔ ∃ r, r ∈ rows df ∧ is_Some (r !! c).
Proof.
  rewrite Nat.ltb_lt. unfold count_notna.
  induction (rows df) as [|r rs IH]; cbn [List.filter].
  - split; [simpl; lia | intros (r & Hr & _); by apply elem_of_nil in Hr].
  - case_bool_decide as Hc.
    + split; [intros _; exists r; split; [left | done] | simpl; lia].
    + rewrite IH. split.
      * intros (r' & Hr' & Hv). exists r'. split; [by right | done].
      * intros (r' & Hr' & Hv). apply elem_of_cons in Hr' as [->|Hr']; [done |].
        eauto.
Qed.

Lemma elem_of_dropna_columns (df : DataFrame) (c : string) :
  c ∈ columns (dropna_all_columns df) ↔ has_value df c.
Proof.
  cbn [dropna_all_columns columns]. unfold has_value.
  by rewrite elem_of_filter_bool, count_notna_positive.
Qed.

(** X2: the frame [filter_dataframe] returns has the columns of the batch that
    hold at least one value, a string in every cell, and no more rows than
    the batch. *)
Theorem filter_dataframe_shape (re : ReEngine) (df df' : DataFrame) (config : Config) :
  outcome (filter_dataframe re df config) = Ok df' →
  (∀ c, c ∈ columns df' ↔ has_value df c) ∧
  Forall (complete_row (columns df')) (rows df') ∧
  (length (rows df') ≤ length (rows df))%nat.
Proof.
  intros Hf. split; [| split].
  - intros c. rewrite filter_dataframe_spec in Hf.
    destruct (missing_key _ _); [done |]. injection Hf as <-.
    apply elem_of_dropna_columns.
  - by eapply filter_dataframe_complete.
  - rewrite filter_dataframe_spec in Hf.
    destruct (missing_key _ _); [done |]. injection Hf as <-.
    cbn [rows]. unfold filtered_rows.
    rewrite apply_filters_forallb.
    etrans; [apply List.filter_length_le |]. rewrite length_fmap.
    etrans; [apply List.filter_length_le |]. apply List.filter_length_le.
Qed.

(** X3: [filter_dataframe] works row by row: it returns, in the order of the
    batch and with missing cells filled with the empty string, exactly the
    rows that pass [survives], a test on the row and the columns kept. *)
Theorem filter_dataframe_rowwise (re : ReEngine) (df df' : DataFrame) (config : Config) :
  outcome (filter_dataframe re df config) = Ok df' →
  rows df' = fill_row (columns df') <$> List.filter (survives re config (columns df')) (rows df).
Proof.
  rewrite filter_dataframe_spec.
  destruct (missing_key _ _); [done |]. intros [= <-]. cbn [columns rows].
  unfold filtered_rows.
  rewrite apply_filters_forallb, filter_fmap_comm, !filter_filter_and.
  f_equal. apply List.filter_ext. intros r. unfold survives.
  by rewrite andb_assoc.
Qed.

(** X4: under a configuration whose patterns all compile (they are in the
    literal fragment), [filter_dataframe] raises exactly when a key column
    with an exclusion pattern set holds no value in the batch: absent, or
    present and empty.  The additional filters never make it raise. *)
Theorem filter_dataframe_raises (re : ReEngine) (df : DataFrame) (config : Config) :
  literal_patterns config = true →
  ((∃ e, outcome (filter_dataframe re df config) = Raise e) ↔
   (str_bool (main_column_exclude config) = true ∧ ¬ has_value df (main_column config)) ∨
   (str_bool (secondary_column_exclude config) = true ∧
    ¬ has_value df (secondary_column config))).
Proof.
  intros _. rewrite filter_dataframe_spec. unfold missing_key.
  rewrite <- !elem_of_dropna_columns.
  destruct (str_bool (main_column_exclude config)),
           (str_bool (secondary_column_exclude config)); cbn [andb];
    repeat case_bool_decide; cbn [outcome];
    split; try (intros [e [=]]); try (intros [[? ?]|[? ?]]); try done; eauto.
Qed.

(** ** What the aggregation does not depend on *)

Lemma filter_bool_Permutation {A} (p : A → bool) (l1 l2 : list A) :
  l1 ≡ₚ l2 → List.filter p l1 ≡ₚ List.filter p l2.
Proof.
  induction 1 as [|x l1 l2 _ IH|x y l|l1 l2 l3 _ IH1 _ IH2]; cbn [List.filter].
  - done.
  - destruct (p x); [by constructor | done].
  - destruct (p x), (p y); try done. apply perm_swap.
  - by etrans.
Qed.

Lemma apply_filters_Permutation (re : ReEngine) (cols : list string)
    (fs : list (string * string)) (rs1 rs2 : list Row) :
  rs1 ≡ₚ rs2 → apply_filters re cols fs rs1 ≡ₚ apply_filters re cols fs rs2.
Proof.
  revert rs1 rs2. induction fs as [|f fs IH]; intros rs1 rs2 H; [done |].
  cbn [apply_filters]. by apply IH, filter_bool_Permutation.
Qed.

Lemma tally_Permutation (ks1 ks2 : list PivotKey) :
  ks1 ≡ₚ ks2 → tally ks1 = tally ks2.
Proof.
  intros H. apply map_eq; intros k. rewrite !lookup_tally.
  rewrite (bool_decide_ext (k ∈ ks1) (k ∈ ks2)) by (by rewrite H).
  by rewrite (Permutation_length (filter_bool_Permutation _ _ _ H)).
Qed.

Lemma dropna_columns_Permutation (cols : list string) (rs1 rs2 : list Row) :
  rs1 ≡ₚ rs2 →
  columns (dropna_all_columns {| columns := cols; rows := rs1 |})
  = columns (dropna_all_columns {| columns := cols; rows := rs2 |}).
Proof.
  intros H. cbn [dropna_all_columns columns]. apply List.filter_ext. intros c.
  unfold count_notna. cbn [rows].
  by rewrite (Permutation_length (filter_bool_Permutation _ _ _ H)).
Qed.

(** X5: the outcome of filtering and aggregating a batch does not depend on the
    order of its rows. *)
Theorem row_order_irrelevant (re : ReEngine) (config : Config) (cols : list string)
    (rs1 rs2 : list Row) :
  wf_config config = true →
  rs1 ≡ₚ rs2 →
  outcome (filter_then_pivot re {| columns := cols; rows := rs1 |} config)
  = outcome (filter_then_pivot re {| columns := cols; rows := rs2 |} config).
Proof.
  intros _ H. unfold filter_then_pivot.
  rewrite !outcome_bind, !filter_dataframe_spec.
  rewrite (dropna_columns_Permutation cols rs1 rs2 H).
  destruct (missing_key _ _); [done |].
  cbn [outcome]. rewrite !pivot_table_spec. cbn [columns rows].
  repeat case_bool_decide; try done. cbn [outcome]. f_equal.
  apply tally_Permutation. unfold pivot_keys, filtered_rows.
  apply omap_Permutation, filter_bool_Permutation, apply_filters_Permutation.
  apply fmap_Permutation. by do 2 apply filter_bool_Permutation.
Qed.

Lemma omap_filter_Forall2 {A B} (p : A → bool) (g : A → option B) (l1 l2 : list A) :
  Forall2 (λ a b, p a = p b ∧ g a = g b) l1 l2 →
  omap g (List.filter p l1) = omap g (List.filter p l2).
Proof.
  induction 1 as [|a b l1 l2 [Hp Hg] _ IH]; [done |].
  cbn [List.filter]. rewrite Hp. destruct (p b); [| exact IH].
  change (omap g (a :: ?l)) with (match g a with
                                  | Some y => y :: omap g l
                                  | None => omap g l
                                  end).
  change (omap g (b :: ?l)) with (match g b with
                                  | Some y => y :: omap g l
                                  | None => omap g l
                                  end).
  by rewrite Hg, IH.
Qed.

Lemma pivot_keys_agree (config : Config) (rs1 rs2 : list Row) :
  Forall2 (λ r1 r2 : Row,
             r1 !! main_column config = r2 !! main_column config ∧
             r1 !! secondary_column config = r2 !! secondary_column config) rs1 rs2 →
  pivot_keys config rs1 = pivot_keys config rs2.
Proof.
  intros H. unfold pivot_keys. apply omap_filter_Forall2.
  eapply Forall2_impl; [exact H |]. intros r1 r2 [Hm Hs].
  unfold secondary_nonblank, group_key. cbn [fst snd]. by rewrite Hm, Hs.
Qed.

(** X6: [pivot_table] reads the two key columns only: frames that agree on them,
    row by row, get the same table whatever else they hold. *)
Theorem pivot_table_reads_key_columns (df1 df2 : DataFrame) (config : Config) :
  wf_config config = true →
  (main_column config ∈ columns df1 ↔ main_column config ∈ columns df2) →
  (secondary_column config ∈ columns df1 ↔ secondary_column config ∈ columns df2) →
  Forall2 (λ r1 r2 : Row,
             r1 !! main_column config = r2 !! main_column config ∧
             r1 !! secondary_column config = r2 !! secondary_column config)
          (rows df1) (rows df2) →
  pivot_table df1 config = pivot_table df2 config.
Proof.
  intros _ Hm Hs Hrows. rewrite !pivot_table_spec.
  rewrite (bool_decide_ext _ _ Hm), (bool_decide_ext _ _ Hs).
  by rewrite (pivot_keys_agree config _ _ Hrows).
Qed.

(** ** Exceptions and log records of [pivot_file] *)

Lemma events_bind {A B} (m : M A) (k : A → M B) :
  events (m ≫= k) =
    match outcome m with
    | Ok a => events m ++ events (k a)
    | Raise e => events m
    end.
Proof. unfold mbind, M_bind. by destruct (outcome m). Qed.

Lemma skipped_skip_logs (cols : list string) (fs : list (string * string)) :
  Forall is_skip_log (skipped cols fs).
Proof. unfold skipped. apply Forall_fmap, Forall_forall. by intros f _. Qed.

Lemma filter_then_pivot_raises (re : ReEngine) (df : DataFrame) (config : Config) (e : exn) :
  outcome (filter_then_pivot re df config) = Raise e →
  e = KeyError (main_column config) ∨ e = KeyError (secondary_column config).
Proof.
  unfold filter_then_pivot. rewrite outcome_bind, filter_dataframe_spec.
  destruct (missing_key config _) as [c|] eqn:Hk; cbn [outcome].
  - intros [= <-]. destruct (missing_key_cases _ _ _ Hk) as [->| ->]; auto.
  - rewrite pivot_table_spec. repeat case_bool_decide; intros [= <-]; auto.
Qed.

Lemma filter_then_pivot_events (re : ReEngine) (df : DataFrame) (config : Config) :
  Forall is_skip_log (events (filter_then_pivot re df config)).
Proof.
  unfold filter_then_pivot. rewrite events_bind, filter_dataframe_spec.
  destruct (missing_key config _); cbn [outcome events]; [constructor |].
  rewrite pivot_table_spec.
  repeat case_bool_decide; cbn [events]; rewrite app_nil_r;
    apply skipped_skip_logs.
Qed.

Lemma for_chunks_raises (re : ReEngine) (config : Config) (reader : list DataFrame)
    (overall : option CountTable) (e : exn) :
  outcome (for_chunks re config reader overall) = Raise e →
  e = KeyError (main_column config) ∨ e = KeyError (secondary_column config).
Proof.
  revert overall. induction reader as [|chunk reader IH]; intros overall; [done |].
  rewrite for_chunks_cons, outcome_bind.
  destruct (outcome (filter_then_pivot re chunk config)) as [t|e'] eqn:Hc.
  - apply IH.
  - intros [= <-]. by eapply filter_then_pivot_raises.
Qed.

Lemma for_chunks_events (re : ReEngine) (config : Config) (reader : list DataFrame)
    (overall : option CountTable) :
  Forall is_skip_log (events (for_chunks re config reader overall)).
Proof.
  revert overall. induction reader as [|chunk reader IH]; intros overall.
  - constructor.
  - rewrite for_chunks_cons, events_bind.
    pose proof (filter_then_pivot_events re chunk config) as Hc.
    destruct (outcome (filter_then_pivot re chunk config)); [| done].
    apply Forall_app. split; [done | apply IH].
Qed.

Lemma pivot_file_raises (re : ReEngine) (f : CsvFile) (config : Config) (e : exn) :
  outcome (pivot_file re f config) = Raise e →
  e = KeyError (main_column config) ∨ e = KeyError (secondary_column config).
Proof.
  unfold pivot_file. destruct (_ >? _).
  - apply for_chunks_raises.
  - rewrite pivot_whole_file_bind, outcome_bind.
    destruct (outcome (filter_then_pivot re (read_csv f true) config)) eqn:Hw;
      [done |].
    intros [= <-]. by eapply filter_then_pivot_raises.
Qed.

(** X8: for a file that [read_csv] parses (a header line, one field per
    header label in every record) and a configuration whose patterns all
    compile and whose key columns differ, the only exceptions of
    [pivot_file] are the [KeyError]s of the two key columns: no [ValueError]
    from a mask with missing values, and nothing the handler of [main]
    catches. *)
Theorem pivot_file_exceptions (re : ReEngine) (f : CsvFile) (config : Config) (e : exn) :
  wf_config config = true →
  literal_patterns config = true →
  well_formed_csv f →
  outcome (pivot_file re f config) = Raise e →
  (e = KeyError (main_column config) ∨ e = KeyError (secondary_column config)) ∧
  is_ZeroDivisionError e = false.
Proof.
  intros _ _ _ He. split; [by eapply pivot_file_raises |].
  by destruct (pivot_file_raises re f config e He) as [->| ->].
Qed.

Lemma pivot_file_events (re : ReEngine) (f : CsvFile) (config : Config) :
  Forall is_skip_log (events (pivot_file re f config)).
Proof.
  unfold pivot_file. destruct (_ >? _).
  - apply for_chunks_events.
  - rewrite pivot_whole_file_bind, events_bind.
    pose proof (filter_then_pivot_events re (read_csv f true) config) as Hw.
    destruct (outcome (filter_then_pivot re (read_csv f true) config)); [| done].
    cbn [events]. by rewrite app_nil_r.
Qed.

(** ** The result of the chunked loop *)

Lemma for_chunks_nonempty (re : ReEngine) (config : Config) (reader : list DataFrame)
    (overall : option CountTable) (t : CountTable) :
  (∀ o, overall = Some o → o ≠ ∅) →
  outcome (for_chunks re config reader overall) = Ok (Some t) → t ≠ ∅.
Proof.
  revert overall. induction reader as [|chunk reader IH]; intros overall Ho.
  - intros [= ->]. by apply Ho.
  - rewrite for_chunks_cons, outcome_bind.
    destruct (outcome (filter_then_pivot re chunk config)) as [t'|]; [| done].
    apply IH. intros o. unfold accumulate, df_empty.
    case_bool_decide as Ht'; [apply Ho |].
    intros [= <-]. destruct overall as [o'|]; [| done].
    intros H. by apply merge_counts_eq_empty in H as [_ ?].
Qed.

(** X9: [pivot_file] returns [None] in chunked mode only, and the table it
    returns in chunked mode is never empty: an empty result is [None] there
    and an empty table in whole-file mode. *)
Theorem pivot_file_none_or_nonempty (re : ReEngine) (f : CsvFile) (config : Config) :
  (outcome (pivot_file re f config) = Ok None → MAX_FILE_SIZE < file_size f) ∧
  (∀ t, MAX_FILE_SIZE < file_size f →
        outcome (pivot_file re f config) = Ok (Some t) → t ≠ ∅).
Proof.
  unfold pivot_file. destruct (_ >? _) eqn:E; split.
  - lia.
  - intros t _. unfold pivot_chunked_file. cbn zeta.
    by apply for_chunks_nonempty.
  - rewrite pivot_whole_file_bind, outcome_bind.
    by destruct (outcome (filter_then_pivot re (read_csv f true) config)).
  - lia.
Qed.

(** ** The loop of [main] *)

Lemma process_file_outcome (re : ReEngine) (config : Config) (path : string) (f : CsvFile) :
  outcome (process_file re config path f) =
    match outcome (pivot_file re f config) with
    | Ok (Some _) =>
        match merge_output_cells config with
        | Some _ => Ok tt
        | None => Raise AttributeError
        end
    | Ok None => Raise AttributeError
    | Raise e => Raise e
    end.
Proof.
  unfold process_file. rewrite !outcome_bind. cbn [emit outcome].
  destruct (outcome (pivot_file re f config)) as [[t|]|e]; try done.
  unfold write_dataframe_to_output. by destruct (merge_output_cells config).
Qed.

Lemma process_file_events (re : ReEngine) (config : Config) (path : string) (f : CsvFile) :
  events (process_file re config path f) =
    Log DEBUG (MsgProcessing path) :: events (pivot_file re f config) ++
    match outcome (pivot_file re f config), merge_output_cells config with
    | Ok (Some t), Some b => [ToExcel path t b]
    | _, _ => []
    end.
Proof.
  unfold process_file. rewrite events_bind. cbn [emit outcome events app].
  rewrite events_bind.
  destruct (outcome (pivot_file re f config)) as [[t|]|e]; cbn [app];
    rewrite ?app_nil_r; try done;
    unfold write_dataframe_to_output;
    destruct (merge_output_cells config); cbn [events raise emit];
    by rewrite ?app_nil_r.
Qed.

Lemma process_file_not_caught (re : ReEngine) (config : Config) (path : string)
    (f : CsvFile) (e : exn) :
  outcome (process_file re config path f) = Raise e → is_ZeroDivisionError e = false.
Proof.
  rewrite process_file_outcome.
  destruct (outcome (pivot_file re f config)) as [[t|]|e'] eqn:Hp.
  - destruct (merge_output_cells config); [done | by intros [= <-]].
  - by intros [= <-].
  - intros [= <-]. by destruct (pivot_file_raises re f config e' Hp) as [->| ->].
Qed.

(** No exception of the body reaches the handler: the [try] statement is
    the body alone. *)
Lemma for_input_files_cons (re : ReEngine) (config : Config) (path : string) (f : CsvFile)
    (rest : list (string * CsvFile)) :
  for_input_files re config ((path, f) :: rest)
  = (process_file re config path f;; for_input_files re config rest).
Proof.
  cbn [for_input_files]. fold (process_file re config path f).
  unfold try_except.
  destruct (outcome (process_file re config path f)) as [|e] eqn:Hb; [done |].
  by rewrite (process_file_not_caught re config path f e Hb).
Qed.

Lemma sheets_app (evs1 evs2 : list event) :
  sheets (evs1 ++ evs2) = sheets evs1 ++ sheets evs2.
Proof. apply omap_app. Qed.

Lemma sheets_skip_logs (evs : list event) : Forall is_skip_log evs → sheets evs = [].
Proof.
  induction 1 as [|ev evs Hev _ IH]; [done |].
  destruct ev as [lv msg|]; [| done]. exact IH.
Qed.

Lemma process_file_sheets (re : ReEngine) (config : Config) (path : string) (f : CsvFile) :
  sheets (events (process_file re config path f)) =
    match outcome (pivot_file re f config), merge_output_cells config with
    | Ok (Some t), Some b => [(path, t, b)]
    | _, _ => []
    end.
Proof.
  rewrite process_file_events.
  change (sheets (?ev :: ?l)) with (sheets [ev] ++ sheets l).
  rewrite sheets_app, (sheets_skip_logs _ (pivot_file_events re f config)).
  destruct (outcome (pivot_file re f config)) as [[t|]|e]; try done.
  by destruct (merge_output_cells config).
Qed.

Lemma main_outcome (re : ReEngine) (config : Config) (files : list (string * CsvFile)) :
  outcome (main re config files) = outcome (for_input_files re config files).
Proof.
  unfold main. rewrite !outcome_bind. cbn [emit outcome].
  by destruct (outcome (for_input_files re config files)) as [[]|].
Qed.

Lemma main_events (re : ReEngine) (config : Config) (files : list (string * CsvFile)) :
  events (main re config files) =
    Log INFO MsgStarting :: Log DEBUG (MsgDiscovered files.*1) ::
    events (for_input_files re config files) ++
    match outcome (for_input_files re config files) with
    | Ok _ => [Log INFO MsgClosing]
    | Raise _ => []
    end.
Proof.
  unfold main.
  repeat (rewrite ?events_bind, ?outcome_bind; cbn [emit outcome events app]).
  destruct (outcome (for_input_files re config files));
    cbn [emit outcome events app]; by rewrite ?app_nil_r.
Qed.

Lemma main_sheets (re : ReEngine) (config : Config) (files : list (string * CsvFile)) :
  sheets (events (main re config files))
  = sheets (events (for_input_files re config files)).
Proof.
  rewrite main_events.
  change (sheets (?e1 :: ?e2 :: ?l)) with (sheets l).
  rewrite sheets_app.
  destruct (outcome (for_input_files re config files)); cbn; by rewrite app_nil_r.
Qed.

Lemma for_input_files_events_ok (re : ReEngine) (config : Config)
    (files : list (string * CsvFile)) :
  Forall (λ ev, ¬ is_uncaught_log ev) (events (for_input_files re config files)).
Proof.
  induction files as [|[path f] files IH]; [constructor |].
  rewrite for_input_files_cons, events_bind.
  assert (Hbody : Forall (λ ev, ¬ is_uncaught_log ev)
                         (events (process_file re config path f))).
  { rewrite process_file_events. constructor; [by intros [] |].
    apply Forall_app. split.
    - eapply Forall_impl; [apply pivot_file_events |].
      intros ev Hskip Hunc. destruct ev as [lv msg|]; [| done].
      destruct lv, msg; simpl in *; contradiction.
    - destruct (outcome (pivot_file re f config)) as [[t|]|e];
        try constructor.
      destruct (merge_output_cells config); constructor; [tauto | constructor]. }
  destruct (outcome (process_file re config path f)); [| done].
  apply Forall_app. by split.
Qed.

(** X13: the handler of [main] is dead code: whatever the files and the
    configuration, no run logs "Uncaught exception while parsing file". *)
Theorem handler_never_runs (re : ReEngine) (config : Config)
    (files : list (string * CsvFile)) :
  Forall (λ ev, ¬ is_uncaught_log ev) (events (main re config files)).
Proof.
  rewrite main_events. do 2 (constructor; [by intros [] |]).
  apply Forall_app. split; [apply for_input_files_events_ok |].
  destruct (outcome (for_input_files re config files)); repeat constructor.
  by intros [].
Qed.

Lemma for_input_files_prefix (re : ReEngine) (config : Config) (b : bool)
    (good rest : list (string * CsvFile)) (ts : list CountTable) :
  merge_output_cells config = Some b →
  Forall2 (λ pf t, outcome (pivot_file re pf.2 config) = Ok (Some t)) good ts →
  outcome (for_input_files re config (good ++ rest))
    = outcome (for_input_files re config rest) ∧
  sheets (events (for_input_files re config (good ++ rest)))
    = zip_with (λ pf t, (pf.1, t, b)) good ts
      ++ sheets (events (for_input_files re config rest)).
Proof.
  intros Hb. induction 1 as [|[path f] t good ts Hf _ [IHo IHs]]; [done |].
  cbn [fst snd] in Hf.
  rewrite <- app_comm_cons, for_input_files_cons, outcome_bind, events_bind.
  rewrite process_file_outcome, Hf, Hb. split; [exact IHo |].
  rewrite sheets_app, process_file_sheets, Hf, Hb, IHs. reflexivity.
Qed.

(** X14: when [pivot_file] returns a table for every file and the configuration
    has [merge_output_cells], [main] ends normally, having written one sheet
    per input file, in the order of the files, and logged "Closing script"
    last. *)
Theorem main_writes_every_sheet (re : ReEngine) (config : Config) (b : bool)
    (files : list (string * CsvFile)) (ts : list CountTable) :
  merge_output_cells config = Some b →
  Forall2 (λ pf t, outcome (pivot_file re pf.2 config) = Ok (Some t)) files ts →
  outcome (main re config files) = Ok tt ∧
  sheets (events (main re config files)) = zip_with (λ pf t, (pf.1, t, b)) files ts ∧
  last (events (main re config files)) = Some (Log INFO MsgClosing).
Proof.
  intros Hb Hall.
  destruct (for_input_files_prefix re config b files [] ts Hb Hall) as [Ho Hs].
  rewrite app_nil_r in Ho, Hs. cbn in Ho, Hs. rewrite app_nil_r in Hs.
  split; [by rewrite main_outcome |]. split; [by rewrite main_sheets |].
  rewrite main_events, Ho.
  rewrite !app_comm_cons. apply last_snoc.
Qed.


(** X16: a configuration without [merge_output_cells], as [config.py] is, never
    gets a sheet written: whatever the input, no run writes one, and a run
    with at least one input file ends with an exception. *)
Theorem no_sheet_without_merge_output_cells (re : ReEngine) (config : Config)
    (files : list (string * CsvFile)) :
  merge_output_cells config = None →
  sheets (events (main re config files)) = [] ∧
  (files ≠ [] → ∃ e, outcome (main re config files) = Raise e).
Proof.
  intros Hnone. split.
  - rewrite main_sheets. induction files as [|[path f] files IH]; [done |].
    rewrite for_input_files_cons, events_bind.
    assert (Hs : sheets (events (process_file re config path f)) = []).
    { rewrite process_file_sheets, Hnone.
      by destruct (outcome (pivot_file re f config)) as [[t|]|e]. }
    destruct (outcome (process_file re config path f)); [| done].
    by rewrite sheets_app, Hs, IH.
  - destruct files as [|[path f] files]; [done |]. intros _.
    rewrite main_outcome, for_input_files_cons, outcome_bind, process_file_outcome.
    rewrite Hnone.
    destruct (outcome (pivot_file re f config)) as [[t|]|e]; eauto.
Qed.

(** ** Chunked mode on a file *)

Lemma for_chunks_complete (re : ReEngine) (config : Config) (cols : list string)
    (chunks : list (list Row)) :
  chunks ≠ [] →
  Forall (λ ch, ch ≠ [] ∧ Forall (complete_row cols) ch) chunks →
  outcome (for_chunks re config ((λ rs, {| columns := cols; rows := rs |}) <$> chunks) None)
  = match schema_error config cols with
    | Some e => Raise e
    | None =>
        Ok (if df_empty (table_of re config cols (concat chunks)) then None
            else Some (table_of re config cols (concat chunks)))
    end.
Proof.
  intros Hne Hchunks.
  assert (Hpart : ∀ ch, ch ∈ chunks →
            outcome (filter_then_pivot re {| columns := cols; rows := ch |} config) =
              match schema_error config cols with
              | Some e => Raise e
              | None => Ok (table_of re config cols ch)
              end).
  { intros ch Hch. rewrite Forall_forall in Hchunks.
    destruct (Hchunks ch Hch). by apply filter_then_pivot_complete. }
  destruct (schema_error config cols) as [e|].
  - destruct chunks as [|ch chunks]; [done |].
    rewrite fmap_cons, for_chunks_cons, outcome_bind.
    by rewrite (Hpart ch) by left.
  - erewrite for_chunks_outcome; last first.
    { apply Forall2_fmap, Forall_Forall2_diag, Forall_forall.
      intros ch Hch. by apply Hpart. }
    rewrite foldl_accumulate_none, foldl_merge_table_of.
    by rewrite merge_counts_empty_l.
Qed.

Lemma parse_record_plain (hdr fields : list string) :
  parse_record false hdr fields = list_to_map (zip hdr fields).
Proof.
  unfold parse_record. f_equal. cbn [andb negb]. apply filter_true.
Qed.

Lemma parse_record_complete (hdr fields : list string) :
  length fields = length hdr → complete_row hdr (parse_record false hdr fields).
Proof.
  intros Hlen c Hc. rewrite parse_record_plain.
  destruct (list_to_map (zip hdr fields) !! c) eqn:Hl; [done |].
  apply not_elem_of_list_to_map in Hl.
  rewrite fst_zip in Hl by lia. done.
Qed.

Lemma chunked_fuel_Forall {A} (P : A → Prop) (fuel n : nat) (l : list A) :
  Forall P l → Forall (Forall P) (chunked_fuel fuel n l).
Proof.
  revert l. induction fuel as [|fuel IH]; intros l Hl; [constructor |].
  destruct l as [|x l]; [constructor |]. cbn [chunked_fuel].
  constructor; [by apply Forall_take | by apply IH, Forall_drop].
Qed.

Lemma read_csv_chunks_rows (f : CsvFile) (n : N) :
  (0 < n)%N → records f ≠ [] →
  Forall (λ fields, length fields = length (header f)) (records f) →
  ∃ chunks : list (list Row),
    read_csv_chunks f n false
      = (λ rs, {| columns := header f; rows := rs |}) <$> chunks ∧
    concat chunks = rows (read_csv f false) ∧
    chunks ≠ [] ∧
    Forall (λ ch, ch ≠ [] ∧ Forall (complete_row (header f)) ch) chunks.
Proof.
  intros Hn Hne Hrect.
  destruct (chunked_fuel_spec (N.to_nat n) (length (records f)) (records f))
    as (Hcat & Hall & _); [lia | done |].
  pose proof (chunked_fuel_Forall _ (length (records f)) (N.to_nat n) _ Hrect) as Hrs.
  exists ((λ ch : list (list string), parse_record false (header f) <$> ch)
            <$> chunked (N.to_nat n) (records f)).
  unfold read_csv_chunks, read_csv, chunked in *.
  set (cs := chunked_fuel _ _ _) in *.
  split; [by rewrite <- list_fmap_compose |]. split; [| split].
  - cbn [frame_of rows]. rewrite <- Hcat. clear.
    induction cs as [|c cs IH]; [done |].
    rewrite fmap_cons. cbn [concat]. by rewrite fmap_app, IH.
  - destruct cs; [| done]. cbn in Hcat. by destruct Hne.
  - apply Forall_fmap. apply Forall_forall. intros ch Hch.
    rewrite Forall_forall in Hall, Hrs. specialize (Hall ch Hch).
    specialize (Hrs ch Hch). cbn beta. split.
    + destruct ch; [simpl in Hall; lia | done].
    + apply Forall_fmap. eapply Forall_impl; [exact Hrs |].
      intros fields Hlen. by apply parse_record_complete.
Qed.

Lemma read_csv_complete (f : CsvFile) :
  records f ≠ [] →
  Forall (λ fields, length fields = length (header f)) (records f) →
  rows (read_csv f false) ≠ [] ∧
  Forall (complete_row (header f)) (rows (read_csv f false)).
Proof.
  intros Hne Hrect. unfold read_csv. cbn [frame_of rows]. split.
  - by destruct (records f).
  - apply Forall_fmap. eapply Forall_impl; [exact Hrect |].
    intros fields Hlen. by apply parse_record_complete.
Qed.

Lemma for_chunks_file (re : ReEngine) (config : Config) (f : CsvFile) (n : N) :
  (0 < n)%N → records f ≠ [] →
  Forall (λ fields, length fields = length (header f)) (records f) →
  outcome (for_chunks re config (read_csv_chunks f n false) None)
  = match outcome (filter_then_pivot re (read_csv f false) config) with
    | Ok t => Ok (if df_empty t then None else Some t)
    | Raise e => Raise e
    end.
Proof.
  intros Hn Hne Hrect.
  destruct (read_csv_chunks_rows f n Hn Hne Hrect) as (chunks & -> & Hcat & Hc & Hall).
  destruct (read_csv_complete f Hne Hrect) as [Hrows Hcomplete].
  rewrite for_chunks_complete by done.
  replace (read_csv f false)
    with {| columns := header f; rows := rows (read_csv f false) |} by done.
  rewrite filter_then_pivot_complete by done.
  rewrite Hcat. by destruct (schema_error config (header f)).
Qed.

(** X10: on a file with at least one record, every record with one field per
    header label, chunked mode gives what filtering and aggregating the whole
    file, read without the NA filter, gives, an empty table becoming [None];
    the chunk size has no part in the result. *)
Theorem chunk_size_irrelevant (re : ReEngine) (config : Config) (f : CsvFile) :
  wf_config config = true →
  records f ≠ [] →
  Forall (λ fields, length fields = length (header f)) (records f) →
  outcome (pivot_chunked_file re f config)
    = match outcome (filter_then_pivot re (read_csv f false) config) with
      | Ok t => Ok (if df_empty t then None else Some t)
      | Raise e => Raise e
      end ∧
  ∀ n : N, (0 < n)%N →
    outcome (for_chunks re config (read_csv_chunks f n false) None)
    = outcome (pivot_chunked_file re f config).
Proof.
  intros _ Hne Hrect. unfold pivot_chunked_file. cbn zeta.
  assert (H0 : (0 < CHUNKSIZE)%N) by done.
  split; [by apply for_chunks_file |].
  intros n Hn. by rewrite !for_chunks_file.
Qed.

Lemma read_csv_without_na (f : CsvFile) :
  Forall (Forall (λ v, is_na v = false)) (records f) →
  read_csv f true = read_csv f false.
Proof.
  intros Hna. unfold read_csv, frame_of. f_equal.
  apply Forall_fmap_ext. eapply Forall_impl; [exact Hna |].
  intros fields Hf. unfold parse_record. f_equal.
  rewrite !filter_all_true; [done | done |].
  intros [c v] Hcv. cbn [snd andb].
  apply elem_of_zip_r in Hcv. rewrite Forall_forall in Hf.
  by rewrite (Hf v Hcv).
Qed.

(** X11: on a file none of whose fields is one of the strings [read_csv] takes
    for NaN (with at least one record, one field per header label), the two
    modes agree: the same exception, or the same table, [None] standing for
    the empty one in chunked mode. *)
Theorem modes_agree_without_na (re : ReEngine) (config : Config) (f : CsvFile) :
  wf_config config = true →
  records f ≠ [] →
  Forall (λ fields, length fields = length (header f)) (records f) →
  Forall (Forall (λ v, is_na v = false)) (records f) →
  outcome (pivot_chunked_file re f config)
  = match outcome (pivot_whole_file re f config) with
    | Ok (Some t) => Ok (if df_empty t then None else Some t)
    | other => other
    end.
Proof.
  intros _ Hne Hrect Hna. unfold pivot_chunked_file. cbn zeta.
  rewrite for_chunks_file by done.
  rewrite pivot_whole_file_bind, outcome_bind, (read_csv_without_na f Hna).
  by destruct (outcome (filter_then_pivot re (read_csv f false) config)).
Qed.

(** ** A file without records in whole-file mode *)

Lemma filter_false {A} (l : list A) : List.filter (λ _, false) l = [].
Proof. by induction l. Qed.

(** X12: a file with a header and no record makes whole-file mode raise: the
    frame has no row, [dropna] drops every column of it, and the first key
    column looked up is reported missing, the main one if its exclusion is
    set and the secondary one otherwise. *)
Theorem header_only_file_raises (re : ReEngine) (config : Config) (f : CsvFile) :
  records f = [] →
  file_size f ≤ MAX_FILE_SIZE →
  outcome (pivot_file re f config)
  = Raise (KeyError (if str_bool (main_column_exclude config)
                     then main_column config
                     else secondary_column config)).
Proof.
  intros Hrec Hsize. unfold pivot_file.
  destruct (_ >? _) eqn:E; [lia |].
  rewrite pivot_whole_file_bind, outcome_bind. unfold filter_then_pivot.
  rewrite outcome_bind, filter_dataframe_spec.
  assert (Hcols : columns (dropna_all_columns (read_csv f true)) = []).
  { unfold read_csv, frame_of. rewrite Hrec. cbn. apply filter_false. }
  rewrite Hcols. unfold missing_key.
  rewrite !bool_decide_eq_true_2 by apply not_elem_of_nil.
  rewrite !andb_true_r.
  destruct (str_bool (main_column_exclude config)); [done |].
  destruct (str_bool (secondary_column_exclude config)); [done |].
  cbn [outcome]. rewrite pivot_table_spec. cbn [columns].
  by rewrite bool_decide_eq_false_2 by apply not_elem_of_nil.
Qed.

(** ** Blank secondary values *)


(** * Paths and the directory walk *)

Lemma Tree_ind_nested (P : Tree → Prop) :
  (∀ files subdirs, Forall (λ d : string * Tree, P d.2) subdirs → P (Dir files subdirs)) →
  ∀ t, P t.
Proof.
  intros H. fix IH 1. intros [files subdirs]. apply H.
  induction subdirs as [|[n s] ds IHds]; constructor; [apply IH | apply IHds].
Qed.

Lemma elem_of_concat {A : Type} (x : A) (ls : list (list A)) :
  x ∈ concat ls ↔ ∃ l, x ∈ l ∧ l ∈ ls.
Proof.
  induction ls as [|l ls IH]; simpl.
  - split; [by intros ?%elem_of_nil | by intros (l & _ & ?%elem_of_nil)].
  - rewrite elem_of_app, IH. split.
    + intros [H|(l' & H1 & H2)]; [exists l; split; [done | left] |].
      exists l'. split; [done | by right].
    + intros (l' & H1 & [->|H2]%elem_of_cons); [by left|]. right. by exists l'.
Qed.

Lemma walk_Dir (top : string) (files : list string) (subdirs : list (string * Tree)) :
  walk top (Dir files subdirs) =
  (top, subdirs.*1, files)
  :: concat ((λ d : string * Tree, walk (path_join top d.1) d.2) <$> subdirs).
Proof.
  simpl. f_equal. induction subdirs as [|[n s] ds IH]; [done|].
  simpl. by rewrite IH.
Qed.

Lemma in_tree_nil (files : list string) (subdirs : list (string * Tree)) (name : string) :
  in_tree (Dir files subdirs) [] name ↔ name ∈ files.
Proof. done. Qed.

Lemma in_tree_cons (files : list string) (subdirs : list (string * Tree))
    (d : string) (dirs : list string) (name : string) :
  in_tree (Dir files subdirs) (d :: dirs) name ↔
  ∃ sub, (d, sub) ∈ subdirs ∧ in_tree sub dirs name.
Proof.
  simpl. induction subdirs as [|[n s] ds IH].
  - split; [done|]. intros (sub & H & _). by apply elem_of_nil in H.
  - rewrite IH. split.
    + intros [[-> H]|(sub & H1 & H2)].
      * exists s. split; [left | done].
      * exists sub. split; [by right | done].
    + intros (sub & H1 & H2). apply elem_of_cons in H1 as [[= <- <-]|H1].
      * by left.
      * right. by exists sub.
Qed.

Lemma file_names_ok_Dir (files : list string) (subdirs : list (string * Tree)) :
  file_names_ok (Dir files subdirs) ↔
  Forall (λ name, no_sep name = true) files ∧
  Forall (λ d : string * Tree, file_names_ok d.2) subdirs.
Proof.
  simpl. apply and_iff_compat_l. induction subdirs as [|[n s] ds IH].
  - split; [by constructor | done].
  - rewrite IH, Forall_cons. done.
Qed.

Lemma rsplit_None (c : ascii) (s : string) :
  rsplit c s = None ↔ no_char c s = true.
Proof.
  induction s as [|a s IH]; simpl; [done|].
  destruct (rsplit c s) as [[h t]|].
  - split; [done|]. intros [_ H]%andb_prop. by apply IH in H.
  - destruct (Ascii.eqb a c); simpl; [done|]. split; [intros _; by apply IH | done].
Qed.

Lemma rsplit_app (c : ascii) (h t : string) :
  no_char c t = true → rsplit c (h +:+ String c t) = Some (h, t).
Proof.
  intros Ht. induction h as [|a h IH]; simpl.
  - apply rsplit_None in Ht. rewrite Ht. by rewrite Ascii.eqb_refl.
  - unfold String.app in IH. fold String.append in IH. by rewrite IH.
Qed.

Lemma rsplit_Some (c : ascii) (s h t : string) :
  rsplit c s = Some (h, t) → s = h +:+ String c t ∧ no_char c t = true.
Proof.
  revert h. induction s as [|a s IH]; intros h; simpl; [done|].
  destruct (rsplit c s) as [[h' t']|] eqn:E.
  - intros [= <- <-]. destruct (IH h' eq_refl) as [-> Ht]. done.
  - destruct (Ascii.eqb a c) eqn:Ea; [|done]. intros [= <- <-].
    apply Ascii.eqb_eq in Ea as ->. split; [done|]. by apply rsplit_None.
Qed.

Lemma splitext_name (name : string) :
  no_sep name = true →
  ((splitext name).2 = ".csv" ↔ csv_name name).
Proof.
  intros Hn. unfold splitext. apply rsplit_None in Hn. rewrite Hn.
  destruct (rsplit "." name) as [[stem ext]|] eqn:E.
  - apply rsplit_Some in E as [-> Hext]. split.
    + destruct (all_char "." stem) eqn:Hs; simpl; [done|].
      intros [= ->]. by exists stem.
    + intros (stem' & Heq & Hs').
      assert (Hr : rsplit "." (stem' +:+ ".csv") = Some (stem', "csv"))
        by by apply rsplit_app.
      rewrite <- Heq in Hr. rewrite (rsplit_app _ _ _ Hext) in Hr.
      injection Hr as -> ->. by rewrite Hs'.
  - split; [done|]. intros (stem & -> & _).
    by rewrite (rsplit_app "." stem "csv") in E.
Qed.

Lemma elem_of_csv_files_in (abspath : string → string) (root : string)
    (files : list string) (p : string) :
  Forall (λ name, no_sep name = true) files →
  (p ∈ csv_files_in abspath root files ↔
   ∃ name, name ∈ files ∧ csv_name name ∧ p = abspath (path_join root name)).
Proof.
  intros Hok. unfold csv_files_in. rewrite list_elem_of_omap. split.
  - intros (name & Hin & H). exists name. split; [done|].
    pose proof (proj1 (Forall_forall _ _) Hok name Hin) as Hn.
    apply splitext_name in Hn. destruct (splitext name) as [fn ext].
    destruct (String.eqb ext ".csv") eqn:E; [|done].
    apply String.eqb_eq in E. injection H as <-. split; [by apply Hn | done].
  - intros (name & Hin & Hc & ->). exists name. split; [done|].
    pose proof (proj1 (Forall_forall _ _) Hok name Hin) as Hn.
    apply splitext_name in Hn. apply Hn in Hc. destruct (splitext name) as [fn ext].
    simpl in Hc. rewrite Hc. done.
Qed.

Lemma elem_of_walk_files (abspath : string → string) (t : Tree) :
  ∀ top p,
  file_names_ok t →
  (p ∈ concat ((λ entry : string * list string * list string,
                  csv_files_in abspath entry.1.1 entry.2) <$> walk top t) ↔
   ∃ dirs name, in_tree t dirs name ∧ csv_name name ∧
                p = abspath (path_join (foldl path_join top dirs) name)).
Proof.
  induction t as [files subdirs IH] using Tree_ind_nested. intros top p Hok.
  apply file_names_ok_Dir in Hok as [Hfiles Hsub].
  rewrite walk_Dir, fmap_cons, concat_cons, elem_of_app. simpl.
  rewrite (elem_of_csv_files_in _ _ _ _ Hfiles). split.
  - intros [(name & Hin & Hc & ->)|H].
    + by exists [], name.
    + apply elem_of_concat in H as (l & Hp & Hl).
      apply list_elem_of_fmap in Hl as ([[root ds] fs] & -> & Hl).
      apply elem_of_concat in Hl as (w & Hw & Hl).
      apply list_elem_of_fmap in Hl as ([n sub] & -> & Hl). simpl in *.
      pose proof (proj1 (Forall_forall _ _) IH _ Hl (path_join top n) p
                    (proj1 (Forall_forall _ _) Hsub _ Hl)) as Hiff.
      simpl in Hiff.
      assert (Hmem : p ∈ concat ((λ entry : string * list string * list string,
                  csv_files_in abspath entry.1.1 entry.2) <$> walk (path_join top n) sub)).
      { apply elem_of_concat. eexists. split; [exact Hp|].
        apply list_elem_of_fmap. by exists (root, ds, fs). }
      apply Hiff in Hmem as (dirs & name & Hin & Hc & ->).
      exists (n :: dirs), name. split; [|done].
      apply (proj2 (in_tree_cons files subdirs n dirs name)). by exists sub.
  - intros (dirs & name & Hin & Hc & ->). destruct dirs as [|d dirs].
    + left. by exists name.
    + right. apply (proj1 (in_tree_cons files subdirs d dirs name)) in Hin as (sub & Hl & Hin).
      pose proof (proj1 (Forall_forall _ _) IH _ Hl (path_join top d)
                    (abspath (path_join (foldl path_join top (d :: dirs)) name))
                    (proj1 (Forall_forall _ _) Hsub _ Hl)) as Hiff.
      simpl in Hiff.
      assert (H : ∃ dirs0 name0, in_tree sub dirs0 name0 ∧ csv_name name0 ∧
                abspath (path_join (foldl path_join (path_join top d) dirs) name) =
                abspath (path_join (foldl path_join (path_join top d) dirs0) name0))
        by by exists dirs, name.
      apply Hiff in H. apply elem_of_concat in H as (l & Hp & Hl').
      apply list_elem_of_fmap in Hl' as (entry & -> & Hl').
      apply elem_of_concat. eexists. split; [exact Hp|].
      apply list_elem_of_fmap. exists entry. split; [done|].
      apply elem_of_concat. eexists. split; [exact Hl'|].
      apply list_elem_of_fmap. by exists (d, sub).
Qed.

(** X17: [read_input_csv_files] returns exactly the absolute paths of the files of
    the tree whose name is something other than dots followed by [.csv],
    each joined to the folder through the chain of its directories; a folder
    that does not exist gives no file. *)
Theorem read_input_csv_files_spec (abspath : string → string) (input_folder : string)
    (t : Tree) (p : string) :
  file_names_ok t →
  (p ∈ read_input_csv_files abspath input_folder (Some t) ↔
   ∃ dirs name, in_tree t dirs name ∧ csv_name name ∧
                p = abspath (path_join (foldl path_join input_folder dirs) name)) ∧
  read_input_csv_files abspath input_folder None = [].
Proof.
  intros Hok. split; [|done]. by apply elem_of_walk_files.
Qed.

Lemma app_String_assoc (a : string) (c : ascii) (b : string) :
  (a +:+ String c EmptyString) +:+ b = a +:+ String c b.
Proof.
  induction a as [|x a IH]; [done|].
  change (String x ((a +:+ String c EmptyString) +:+ b) = String x (a +:+ String c b)).
  by rewrite IH.
Qed.

Lemma ends_with_sep_inv (a : string) :
  ends_with_sep a = true → ∃ a', a = a' +:+ "/".
Proof.
  induction a as [|x a IH]; simpl; [done|]. destruct a as [|y a].
  - intros ->%Ascii.eqb_eq. by exists EmptyString.
  - intros H. destruct (IH H) as (a' & ->). by exists (String x a').
Qed.

Lemma no_sep_starts (b : string) : no_sep b = true → starts_with_sep b = false.
Proof.
  destruct b as [|c b]; [done|]. unfold no_sep. simpl.
  intros [H _]%andb_prop. by apply negb_true_iff in H.
Qed.

Lemma basename_no_sep (p : string) : no_sep (basename p) = true.
Proof.
  unfold basename. destruct (rsplit "/" p) as [[h t]|] eqn:E.
  - by apply rsplit_Some in E as [_ ?].
  - by apply rsplit_None.
Qed.

Lemma basename_path_join (a b : string) :
  no_sep b = true → basename (path_join a b) = b.
Proof.
  intros Hb. unfold path_join. rewrite (no_sep_starts b Hb).
  destruct (str_bool a) eqn:Ha; simpl negb; simpl orb.
  - destruct (ends_with_sep a) eqn:E.
    + apply ends_with_sep_inv in E as (a' & Ea). rewrite Ea, app_String_assoc.
      unfold basename. by rewrite (rsplit_app "/" a' b Hb).
    + change ("/" +:+ b) with (String "/" b). unfold basename.
      by rewrite (rsplit_app "/" a b Hb).
  - destruct a; [|done]. change (EmptyString +:+ b) with b. unfold basename.
    by rewrite (proj2 (rsplit_None "/" b) Hb).
Qed.

Lemma no_char_app (c : ascii) (a b : string) :
  no_char c (a +:+ b) = no_char c a && no_char c b.
Proof.
  induction a as [|x a IH]; [done|].
  change (negb (Ascii.eqb x c) && no_char c (a +:+ b) =
          negb (Ascii.eqb x c) && no_char c a && no_char c b).
  by rewrite IH, andb_assoc.
Qed.

Lemma splitext_csv (stem : string) :
  no_sep (stem +:+ ".csv") = true → all_char "." stem = false →
  splitext (stem +:+ ".csv") = (stem, ".csv").
Proof.
  intros Hn Hs. unfold splitext. rewrite (proj2 (rsplit_None "/" _) Hn).
  rewrite (rsplit_app "." stem "csv" eq_refl), Hs. done.
Qed.

Lemma get_new_output_path_csv (relpath : string → string → result string)
    (original input_folder output_folder stem : string) :
  basename original = stem +:+ ".csv" → all_char "." stem = false →
  get_new_output_path relpath original input_folder output_folder =
  match relpath (dirname original) input_folder with
  | Raise e => Raise e
  | Ok sub => Ok (path_join (path_join output_folder sub) (stem +:+ ".xlsx"))
  end.
Proof.
  intros Hb Hs. unfold get_new_output_path.
  destruct (relpath (dirname original) input_folder) as [sub|e]; [|done].
  pose proof (basename_no_sep original) as Hn. rewrite Hb in *.
  by rewrite (splitext_csv stem Hn Hs).
Qed.

Lemma length_append (a b : string) :
  String.length (a +:+ b) = (String.length a + String.length b)%nat.
Proof.
  induction a as [|x a IH]; [done|].
  change (S (String.length (a +:+ b)) = S (String.length a + String.length b)%nat).
  by rewrite IH.
Qed.

Lemma app_inv_tail_string (a b t : string) : a +:+ t = b +:+ t → a = b.
Proof.
  intros H.
  assert (Hl : String.length a = String.length b).
  { apply (f_equal String.length) in H. rewrite !length_append in H. lia. }
  revert b H Hl. induction a as [|x a IH]; intros [|y b] H Hl; try done.
  change (String x (a +:+ t) = String y (b +:+ t)) in H.
  injection H as -> H. injection Hl as Hl. f_equal. by apply IH.
Qed.

(** X18: the output path of a csv file: [relpath] of its directory decides
    whether a path is built at all, and the path built names a file that is
    the input's name with [.xlsx] for [.csv], under the output folder and
    the relative subdirectory. *)
Theorem output_path_of_csv (relpath : string → string → result string)
    (original input_folder output_folder stem : string) :
  basename original = stem +:+ ".csv" → all_char "." stem = false →
  match relpath (dirname original) input_folder with
  | Raise e =>
      get_new_output_path relpath original input_folder output_folder = Raise e
  | Ok sub =>
      ∃ out, get_new_output_path relpath original input_folder output_folder = Ok out ∧
             out = path_join (path_join output_folder sub) (stem +:+ ".xlsx") ∧
             basename out = stem +:+ ".xlsx" ∧
             splitext (basename out) = (stem, ".xlsx")
  end.
Proof.
  intros Hb Hs. rewrite (get_new_output_path_csv _ _ _ _ _ Hb Hs).
  destruct (relpath (dirname original) input_folder) as [sub|e]; [|done].
  pose proof (basename_no_sep original) as Hn. rewrite Hb in Hn.
  unfold no_sep in Hn. rewrite no_char_app in Hn. apply andb_prop in Hn as [Hn _].
  assert (Hx : no_sep (stem +:+ ".xlsx") = true).
  { unfold no_sep. by rewrite no_char_app, Hn. }
  eexists. split; [done|]. split; [done|].
  rewrite (basename_path_join _ _ Hx). split; [done|].
  unfold splitext. rewrite (proj2 (rsplit_None "/" _) Hx).
  by rewrite (rsplit_app "." stem "xlsx" eq_refl), Hs.
Qed.

(** X19: two csv files that get the same output path have the same file name:
    within one directory, no sheet overwrites another's. *)
Theorem output_paths_distinct (relpath : string → string → result string)
    (original1 original2 input_folder output_folder out : string) :
  csv_name (basename original1) → csv_name (basename original2) →
  get_new_output_path relpath original1 input_folder output_folder = Ok out →
  get_new_output_path relpath original2 input_folder output_folder = Ok out →
  basename original1 = basename original2.
Proof.
  intros (s1 & Hb1 & Hs1) (s2 & Hb2 & Hs2).
  rewrite (get_new_output_path_csv _ _ _ _ _ Hb1 Hs1).
  rewrite (get_new_output_path_csv _ _ _ _ _ Hb2 Hs2).
  destruct (relpath (dirname original1) input_folder) as [sub1|]; [|done].
  destruct (relpath (dirname original2) input_folder) as [sub2|]; [|done].
  intros [= <-] [= H]. apply (f_equal basename) in H.
  pose proof (basename_no_sep original1) as Hn1. rewrite Hb1 in Hn1.
  pose proof (basename_no_sep original2) as Hn2. rewrite Hb2 in Hn2.
  unfold no_sep in Hn1, Hn2. rewrite no_char_app in Hn1, Hn2.
  apply andb_prop in Hn1 as [Hn1 _]. apply andb_prop in Hn2 as [Hn2 _].
  rewrite !basename_path_join in H
    by (unfold no_sep; rewrite no_char_app; by (rewrite Hn1 || rewrite Hn2)).
  apply app_inv_tail_string in H. rewrite Hb1, Hb2. by rewrite H.
Qed.

(** ** The further properties at sample inputs *)

Lemma filter_dataframe_shape_witness :
  outcome (filter_dataframe literal_re example_frame config_nl) = Ok example_filtered ∧
  (∀ c, c ∈ columns example_filtered ↔ has_value example_frame c) ∧
  Forall (complete_row (columns example_filtered)) (rows example_filtered) ∧
  (length (rows example_filtered) ≤ length (rows example_frame))%nat.
Proof.
  assert (Hf : outcome (filter_dataframe literal_re example_frame config_nl)
               = Ok example_filtered) by reflexivity.
  split; [exact Hf |].
  exact (filter_dataframe_shape literal_re example_frame example_filtered config_nl Hf).
Defined.

Lemma filter_dataframe_rowwise_witness :
  outcome (filter_dataframe literal_re example_frame config_nl) = Ok example_filtered ∧
  rows example_filtered
  = fill_row (columns example_filtered)
    <$> List.filter (survives literal_re config_nl (columns example_filtered))
                    (rows example_frame).
Proof.
  assert (Hf : outcome (filter_dataframe literal_re example_frame config_nl)
               = Ok example_filtered) by reflexivity.
  split; [exact Hf |].
  exact (filter_dataframe_rowwise literal_re example_frame example_filtered config_nl Hf).
Defined.

Lemma filter_dataframe_raises_witness :
  literal_patterns config_nl = true ∧
  ((str_bool (main_column_exclude config_nl) = true ∧
    ¬ has_value (read_csv no_destination_file true) (main_column config_nl)) ∨
   (str_bool (secondary_column_exclude config_nl) = true ∧
    ¬ has_value (read_csv no_destination_file true) (secondary_column config_nl))).
Proof.
  assert (Hp : literal_patterns config_nl = true) by reflexivity.
  split; [exact Hp |].
  apply (proj1 (filter_dataframe_raises literal_re (read_csv no_destination_file true)
                  config_nl Hp)).
  exists (KeyError "Destination"). reflexivity.
Defined.

Lemma row_order_irrelevant_witness :
  wf_config config_nl = true ∧
  reverse (rows example_frame) ≡ₚ rows example_frame ∧
  outcome (filter_then_pivot literal_re
             {| columns := gap_columns; rows := reverse (rows example_frame) |} config_nl)
  = outcome (filter_then_pivot literal_re
               {| columns := gap_columns; rows := rows example_frame |} config_nl).
Proof.
  assert (Hwf : wf_config config_nl = true) by reflexivity.
  assert (Hp : reverse (rows example_frame) ≡ₚ rows example_frame)
    by apply reverse_Permutation.
  split; [exact Hwf |]. split; [exact Hp |].
  exact (row_order_irrelevant literal_re config_nl gap_columns _ _ Hwf Hp).
Defined.

Lemma pivot_table_reads_key_columns_witness :
  wf_config config_nl = true ∧
  pivot_table example_filtered config_nl = pivot_table example_keys_only config_nl.
Proof.
  assert (Hwf : wf_config config_nl = true) by reflexivity.
  split; [exact Hwf |].
  apply (pivot_table_reads_key_columns example_filtered example_keys_only config_nl Hwf).
  - split; intros _; [right; left | left].
  - split; intros _; [left | right; left].
  - unfold example_filtered, example_keys_only. simpl rows.
    repeat (apply List.Forall2_cons; [split; reflexivity |]). apply List.Forall2_nil.
Defined.

Lemma pivot_file_exceptions_witness :
  wf_config config_nl = true ∧
  literal_patterns config_nl = true ∧
  well_formed_csv no_destination_file ∧
  outcome (pivot_file literal_re no_destination_file config_nl)
  = Raise (KeyError "Destination") ∧
  (KeyError "Destination" = KeyError (main_column config_nl) ∨
   KeyError "Destination" = KeyError (secondary_column config_nl)) ∧
  is_ZeroDivisionError (KeyError "Destination") = false.
Proof.
  assert (Hwf : wf_config config_nl = true) by reflexivity.
  assert (Hp : literal_patterns config_nl = true) by reflexivity.
  assert (Hf : well_formed_csv no_destination_file).
  { split; [discriminate |]. unfold no_destination_file. simpl.
    apply List.Forall_cons; [reflexivity | apply List.Forall_nil]. }
  assert (H : outcome (pivot_file literal_re no_destination_file config_nl)
              = Raise (KeyError "Destination")) by reflexivity.
  split; [exact Hwf |]. split; [exact Hp |]. split; [exact Hf |]. split; [exact H |].
  exact (pivot_file_exceptions literal_re no_destination_file config_nl _ Hwf Hp Hf H).
Defined.

Lemma pivot_file_none_or_nonempty_witness :
  outcome (pivot_file literal_re blank_anchor_file config_nl) = Ok None ∧
  MAX_FILE_SIZE < file_size blank_anchor_file.
Proof.
  assert (H : outcome (pivot_file literal_re blank_anchor_file config_nl) = Ok None)
    by reflexivity.
  split; [exact H |].
  exact (proj1 (pivot_file_none_or_nonempty literal_re blank_anchor_file config_nl) H).
Defined.

Lemma main_writes_every_sheet_witness :
  merge_output_cells config_nl = Some false ∧
  outcome (pivot_file literal_re good_file config_nl) = Ok (Some example_table) ∧
  outcome (main literal_re config_nl [("in/b.csv", good_file)]) = Ok tt ∧
  sheets (events (main literal_re config_nl [("in/b.csv", good_file)]))
  = [("in/b.csv", example_table, false)] ∧
  last (events (main literal_re config_nl [("in/b.csv", good_file)]))
  = Some (Log INFO MsgClosing).
Proof.
  assert (Hm : merge_output_cells config_nl = Some false) by reflexivity.
  assert (Hg : outcome (pivot_file literal_re good_file config_nl)
               = Ok (Some example_table)) by reflexivity.
  assert (Hall : Forall2 (λ (pf : string * CsvFile) (t : CountTable),
                            outcome (pivot_file literal_re pf.2 config_nl) = Ok (Some t))
                         [("in/b.csv", good_file)] [example_table]).
  { apply List.Forall2_cons; [exact Hg | apply List.Forall2_nil]. }
  split; [exact Hm |]. split; [exact Hg |].
  exact (main_writes_every_sheet literal_re config_nl false
           [("in/b.csv", good_file)] [example_table] Hm Hall).
Defined.


Lemma no_sheet_without_merge_output_cells_witness :
  merge_output_cells config_uk = None ∧
  sheets (events (main literal_re config_uk [("in/b.csv", good_file)])) = [] ∧
  ∃ e, outcome (main literal_re config_uk [("in/b.csv", good_file)]) = Raise e.
Proof.
  assert (Hm : merge_output_cells config_uk = None) by reflexivity.
  destruct (no_sheet_without_merge_output_cells literal_re config_uk
              [("in/b.csv", good_file)] Hm) as [Hs He].
  split; [exact Hm |]. split; [exact Hs |]. apply He. discriminate.
Defined.

Lemma chunk_size_irrelevant_witness :
  wf_config config_nl = true ∧
  outcome (for_chunks literal_re config_nl (read_csv_chunks good_file 2 false) None)
  = outcome (pivot_chunked_file literal_re good_file config_nl).
Proof.
  assert (Hwf : wf_config config_nl = true) by reflexivity.
  assert (Hne : records good_file ≠ []) by discriminate.
  assert (Hrect : Forall (λ fields, length fields = length (header good_file))
                         (records good_file)).
  { unfold good_file. simpl.
    repeat (apply List.Forall_cons; [reflexivity |]). apply List.Forall_nil. }
  split; [exact Hwf |].
  apply (proj2 (chunk_size_irrelevant literal_re config_nl good_file Hwf Hne Hrect)).
  reflexivity.
Defined.

Lemma modes_agree_without_na_witness :
  wf_config config_nl = true ∧
  outcome (pivot_chunked_file literal_re good_file config_nl)
  = match outcome (pivot_whole_file literal_re good_file config_nl) with
    | Ok (Some t) => Ok (if df_empty t then None else Some t)
    | other => other
    end.
Proof.
  assert (Hwf : wf_config config_nl = true) by reflexivity.
  assert (Hne : records good_file ≠ []) by discriminate.
  assert (Hrect : Forall (λ fields, length fields = length (header good_file))
                         (records good_file)).
  { unfold good_file. simpl.
    repeat (apply List.Forall_cons; [reflexivity |]). apply List.Forall_nil. }
  assert (Hna : Forall (Forall (λ v, is_na v = false)) (records good_file)).
  { unfold good_file. simpl.
    repeat (apply List.Forall_cons;
            [repeat (apply List.Forall_cons; [reflexivity |]); apply List.Forall_nil |]).
    apply List.Forall_nil. }
  split; [exact Hwf |].
  exact (modes_agree_without_na literal_re config_nl good_file Hwf Hne Hrect Hna).
Defined.

Lemma header_only_file_raises_witness :
  records header_only_file = [] ∧
  file_size header_only_file ≤ MAX_FILE_SIZE ∧
  outcome (pivot_file literal_re header_only_file config_nl)
  = Raise (KeyError "Destination").
Proof.
  assert (Hr : records header_only_file = []) by reflexivity.
  assert (Hs : file_size header_only_file ≤ MAX_FILE_SIZE) by (vm_compute; discriminate).
  split; [exact Hr |]. split; [exact Hs |].
  exact (header_only_file_raises literal_re config_nl header_only_file Hr Hs).
Defined.


Lemma read_input_csv_files_spec_witness :
  file_names_ok sample_tree ∧
  "/home/user/input/UK/sub/deep/d.csv"
    ∈ read_input_csv_files sample_abspath "input/UK" (Some sample_tree) ∧
  "/home/user/input/UK/sub/deep/e.csv.bak"
    ∉ read_input_csv_files sample_abspath "input/UK" (Some sample_tree).
Proof.
  assert (Hok : file_names_ok sample_tree).
  { unfold sample_tree. simpl.
    repeat split; repeat (apply List.Forall_cons; [reflexivity |]); apply List.Forall_nil. }
  split; [exact Hok |]. split.
  - apply (proj1 (read_input_csv_files_spec sample_abspath "input/UK" sample_tree _ Hok)).
    exists ["sub"; "deep"], "d.csv". split; [|split].
    + simpl. left. split; [reflexivity |]. left. split; [reflexivity | left].
    + exists "d". split; reflexivity.
    + reflexivity.
  - intros H. vm_compute in H.
    repeat (apply elem_of_cons in H as [H | H]; [discriminate H |]).
    exact (proj1 (elem_of_nil _) H).
Defined.

Lemma output_path_of_csv_witness :
  basename "/home/user/input/UK/sub/d.csv" = "d" +:+ ".csv" ∧
  all_char "." "d" = false ∧
  ∃ out, get_new_output_path sample_relpath "/home/user/input/UK/sub/d.csv"
           "input/UK" "output/UK" = Ok out ∧
         out = "output/UK/sub/d.xlsx" ∧
         basename out = "d.xlsx" ∧
         splitext (basename out) = ("d", ".xlsx").
Proof.
  assert (Hb : basename "/home/user/input/UK/sub/d.csv" = "d" +:+ ".csv") by reflexivity.
  assert (Hs : all_char "." "d" = false) by reflexivity.
  split; [exact Hb |]. split; [exact Hs |].
  exact (output_path_of_csv sample_relpath "/home/user/input/UK/sub/d.csv"
           "input/UK" "output/UK" "d" Hb Hs).
Defined.

Lemma output_paths_distinct_witness :
  get_new_output_path sample_relpath "/home/user/input/UK/a.csv" "input/UK" "output/UK"
  = Ok "output/UK/./a.xlsx" ∧
  get_new_output_path sample_relpath "/home/user/input/UK/./a.csv" "input/UK" "output/UK"
  = Ok "output/UK/./a.xlsx" ∧
  basename "/home/user/input/UK/a.csv" = basename "/home/user/input/UK/./a.csv".
Proof.
  assert (H1 : get_new_output_path sample_relpath "/home/user/input/UK/a.csv"
                 "input/UK" "output/UK" = Ok "output/UK/./a.xlsx") by reflexivity.
  assert (H2 : get_new_output_path sample_relpath "/home/user/input/UK/./a.csv"
                 "input/UK" "output/UK" = Ok "output/UK/./a.xlsx") by reflexivity.
  assert (Hc1 : csv_name (basename "/home/user/input/UK/a.csv")).
  { exists "a". split; reflexivity. }
  assert (Hc2 : csv_name (basename "/home/user/input/UK/./a.csv")).
  { exists "a". split; reflexivity. }
  split; [exact H1 |]. split; [exact H2 |].
  exact (output_paths_distinct sample_relpath _ _ "input/UK" "output/UK" _
           Hc1 Hc2 H1 H2).
Defined.
